(** * Metrics collector: the in-memory store and the [/track] route of [app/main.py]

    The store keeps six [defaultdict]s keyed by the label triple
    [(event, service, status)].  Python dictionaries iterate in insertion
    order and a [defaultdict] inserts the factory's value when a missing key is
    read, so a dictionary is an insertion-ordered association list and a read
    returns the dictionary it leaves behind.  Values and timestamps are Python
    floats, that is IEEE 754 binary64: Rocq's primitive floats.  A Python [str]
    is a sequence of Unicode code points.  The clock ([time.time()]) is an
    input: every call that reads it takes the reading as an argument. *)

From Stdlib Require Import String Ascii.
From Stdlib Require Import List Bool Arith ZArith NArith Lia Floats Sorted.
Import ListNotations.

Set Implicit Arguments.

(** ** Python strings *)

Definition char := N.
Definition str := list char.

(** A Rocq string literal read as a [str] (code points below 256). *)
Definition py (s : string) : str := map N_of_ascii (list_ascii_of_string s).

(** [str.isspace] on one code point: the Unicode white space characters. *)
Definition isspace (c : char) : bool :=
  ((9 <=? c) && (c <=? 13) || (28 <=? c) && (c <=? 32) || (c =? 133) || (c =? 160)
   || (c =? 5760) || (8192 <=? c) && (c <=? 8202) || (c =? 8232) || (c =? 8233)
   || (c =? 8239) || (c =? 8287) || (c =? 12288))%N.

Fixpoint lstrip (s : str) : str :=
  match s with
  | [] => []
  | c :: r => if isspace c then lstrip r else s
  end.

Definition rstrip (s : str) : str := rev (lstrip (rev s)).

(** [str.strip()]: the left index moves over leading white space, then the
    right index moves back over trailing white space of what is left. *)
Definition strip (s : str) : str := rstrip (lstrip s).

(** [x or ""] for an optional string: [None] and the empty string are falsy. *)
Definition or_empty (x : option str) : str :=
  match x with
  | None => []
  | Some [] => []
  | Some s => s
  end.

(** ** Dictionaries *)

Class EqDec (A : Type) := eq_dec : forall x y : A, {x = y} + {x <> y}.

#[export] Instance N_EqDec : EqDec N := N.eq_dec.
#[export] Instance list_EqDec {A} `{EqDec A} : EqDec (list A) := list_eq_dec eq_dec.
#[export] Instance prod_EqDec {A B} `{EqDec A} `{EqDec B} : EqDec (A * B).
Proof. intros [a b] [a' b']. destruct (eq_dec a a'), (eq_dec b b'); [left|right..]; congruence. Defined.

Definition dict (K V : Type) := list (K * V).

Section Dict.
Context {K V : Type} `{EqDec K}.

Fixpoint get (k : K) (d : dict K V) : option V :=
  match d with
  | [] => None
  | (k', v) :: r => if eq_dec k k' then Some v else get k r
  end.

(** [d[k] = v]: an existing key keeps its position, a new one goes last. *)
Fixpoint setitem (k : K) (v : V) (d : dict K V) : dict K V :=
  match d with
  | [] => [(k, v)]
  | (k', v') :: r => if eq_dec k k' then (k, v) :: r else (k', v') :: setitem k v r
  end.

(** [d[k]] on a [defaultdict] whose factory yields [dflt]: a missing key is
    inserted with [dflt] before it is returned. *)
Definition getitem (dflt : V) (k : K) (d : dict K V) : V * dict K V :=
  match get k d with
  | Some v => (v, d)
  | None => (dflt, setitem k dflt d)
  end.

(** [d.setdefault(k, dflt)] on a plain dictionary. *)
Definition setdefault (k : K) (dflt : V) (d : dict K V) : V * dict K V :=
  getitem dflt k d.

Definition keys (d : dict K V) : list K := map fst d.

(** What a read of [k] yields, the factory's value included. *)
Definition value_of (dflt : V) (k : K) (d : dict K V) : V := fst (getitem dflt k d).
End Dict.

(** [deque(maxlen=n).append(x)]: the item is appended and, when the deque is
    then longer than [maxlen], the leftmost item is dropped. *)
Definition deque_append {A} (maxlen : nat) (x : A) (dq : list A) : list A :=
  let dq' := dq ++ [x] in
  if maxlen <? length dq' then tl dq' else dq'.

(** ** Floats *)

(** [float(n)] for a non-negative Python [int], rounded to nearest even. *)
Definition float_of_nat (n : nat) : float :=
  SF2Prim (binary_normalize prec emax (Z.of_nat n) 0%Z false).

(** ** The store *)

Abbreviation LabelKey := (str * str * str)%type.
Definition point := (float * float)%type.

(** [ts >= cutoff] for a point [(ts, v)] of a series. *)
Definition in_window (cutoff : float) (p : point) : bool := (cutoff <=? fst p)%float.

Record Row := {
  row_event : str; row_service : str; row_status : str;
  row_count : nat; row_samples : nat;
  row_avg : option float; row_min : option float; row_max : option float
}.

Record SeriesEntry := {
  entry_service : str; entry_status : str; entry_points : list point
}.

Module MetricsStore.

Record t := {
  _counts : dict LabelKey nat;
  _sum : dict LabelKey float;
  _n : dict LabelKey nat;
  _min : dict LabelKey float;
  _max : dict LabelKey float;
  _series : dict LabelKey (list point);
  _series_max : nat;
  _series_window : float
}.

Definition init (series_window : float) (series_max : nat) : t :=
  {| _counts := []; _sum := []; _n := []; _min := []; _max := []; _series := [];
     _series_max := series_max; _series_window := series_window |}.

(** [d[key] += 1] on a [defaultdict(int)]. *)
Definition incr (key : LabelKey) (d : dict LabelKey nat) : dict LabelKey nat :=
  let '(c, d) := getitem 0 key d in setitem key (c + 1) d.

(** [d[key] += value] on a [defaultdict(float)]. *)
Definition add_value (key : LabelKey) (value : float) (d : dict LabelKey float) :=
  let '(s, d) := getitem 0%float key d in setitem key (s + value)%float d.

(** [if value < d[key]: d[key] = value] with [math.inf] as the factory. *)
Definition lower (key : LabelKey) (value : float) (d : dict LabelKey float) :=
  let '(m, d) := getitem infinity key d in
  if (value <? m)%float then setitem key value d else d.

(** [if value > d[key]: d[key] = value] with [-math.inf] as the factory. *)
Definition raise (key : LabelKey) (value : float) (d : dict LabelKey float) :=
  let '(m, d) := getitem neg_infinity key d in
  if (m <? value)%float then setitem key value d else d.

(** [d[key].append((ts, value))] where the factory builds [deque(maxlen=series_max)]. *)
Definition push (series_max : nat) (key : LabelKey) (p : point)
    (d : dict LabelKey (list point)) :=
  let '(dq, d) := getitem [] key d in setitem key (deque_append series_max p dq) d.

(** [track]; [ts] is the reading of [time.time()]. *)
Definition track (ts : float) (event : str) (value : option float)
    (service status : option str) (self : t) : t :=
  let key := (event, or_empty service, or_empty status) in
  match value with
  | None =>
      {| _counts := incr key (_counts self);
         _sum := _sum self; _n := _n self; _min := _min self; _max := _max self;
         _series := _series self;
         _series_max := _series_max self; _series_window := _series_window self |}
  | Some v =>
      {| _counts := incr key (_counts self);
         _sum := add_value key v (_sum self);
         _n := incr key (_n self);
         _min := lower key v (_min self);
         _max := raise key v (_max self);
         _series := push (_series_max self) key (ts, v) (_series self);
         _series_max := _series_max self; _series_window := _series_window self |}
  end.

(** [(d[key] / n) if n else None] on the [defaultdict(float)] of sums. *)
Definition average (key : LabelKey) (n : nat) (d : dict LabelKey float)
    : option float * dict LabelKey float :=
  match n with
  | O => (None, d)
  | S _ => let '(s, d) := getitem 0%float key d in (Some (s / float_of_nat n)%float, d)
  end.

(** [d[key] if d[key] != sentinel else None] where the factory yields [sentinel]. *)
Definition unless_sentinel (sentinel : float) (key : LabelKey) (d : dict LabelKey float)
    : option float * dict LabelKey float :=
  let '(m, d) := getitem sentinel key d in
  if negb (m =? sentinel)%float
  then let '(m', d) := getitem sentinel key d in (Some m', d)
  else (None, d).

(** The body of the loop of [snapshot] for one item of [_counts]. *)
Definition snapshot_row (key : LabelKey) (count : nat) (self : t) : Row * t :=
  let '(event, service, status) := key in
  let '(n, d_n) := getitem 0 key (_n self) in
  let '(avg, d_sum) := average key n (_sum self) in
  let '(vmin, d_min) := unless_sentinel infinity key (_min self) in
  let '(vmax, d_max) := unless_sentinel neg_infinity key (_max self) in
  ({| row_event := event; row_service := service; row_status := status;
      row_count := count; row_samples := n;
      row_avg := avg; row_min := vmin; row_max := vmax |},
   {| _counts := _counts self; _sum := d_sum; _n := d_n; _min := d_min; _max := d_max;
      _series := _series self;
      _series_max := _series_max self; _series_window := _series_window self |}).

Fixpoint snapshot_loop (items : list (LabelKey * nat)) (out : list Row) (self : t)
    : list Row * t :=
  match items with
  | [] => (out, self)
  | (key, count) :: rest =>
      let '(row, self) := snapshot_row key count self in
      snapshot_loop rest (out ++ [row]) self
  end.

(** [snapshot]: the rows and the store it leaves (reads of the
    [defaultdict]s may have inserted factory values). *)
Definition snapshot (self : t) : list Row * t :=
  snapshot_loop (_counts self) [] self.

(** The body of the loop of [series] for one item of [_series]. *)
Definition series_item (cutoff : float) (key : LabelKey) (dq : list point)
    (out : dict str (list SeriesEntry)) : dict str (list SeriesEntry) :=
  let series := filter (in_window cutoff) dq in
  match series with
  | [] => out
  | _ :: _ =>
      let '(event, service, status) := key in
      let '(l, out) := setdefault event [] out in
      setitem event
        (l ++ [{| entry_service := service; entry_status := status;
                  entry_points := series |}]) out
  end.

(** [series]; [now] is the reading of [time.time()]. *)
Definition series (now : float) (self : t) : dict str (list SeriesEntry) :=
  let cutoff := (now - _series_window self)%float in
  fold_left (fun out item => series_item cutoff (fst item) (snd item) out)
    (_series self) [].

End MetricsStore.


(** ** Prometheus metrics *)

(** Modelled from the spec: the labelled counter of [prometheus_client] (an
    external library), which section 4.2 describes as "one counter (keyed by
    event/service/status) incremented in lockstep": per label triple, the
    number of [inc()] calls. *)
Definition Counter := dict LabelKey nat.

(** Modelled from the spec: the labelled histogram of [prometheus_client],
    "one histogram (same label set) observing value whenever present": per
    label triple, the values observed, oldest first. *)
Definition Histogram := dict LabelKey (list float).

(** Modelled from the spec: [counter.labels(event=.., service=.., status=..).inc()]
    of [prometheus_client], the counter of the label triple "incremented". *)
Definition inc (labels : LabelKey) (c : Counter) : Counter :=
  let '(n, c) := getitem 0 labels c in setitem labels (n + 1) c.

(** Modelled from the spec:
    [histogram.labels(event=.., service=.., status=..).observe(v)] of
    [prometheus_client], the histogram of the label triple "observing value". *)
Definition observe (labels : LabelKey) (v : float) (h : Histogram) : Histogram :=
  let '(l, h) := getitem [] labels h in setitem labels (l ++ [v]) h.

(** ** The [/track] route *)

Inductive result (A : Type) : Type :=
| Ok (a : A)
| ValueError (msg : string).

Arguments Ok {A} a.
Arguments ValueError {A} msg.

Record TrackPayload := {
  event : str;
  value : option float;
  service : option str;
  status : option str
}.

Definition validate_event (v : str) : result str :=
  let v := strip v in
  match v with
  | [] => ValueError "event must be a non-empty string"
  | _ :: _ => Ok v
  end.

(** Building the model from the fields of a request body: the validator of
    [event] runs and the field takes what it returns. *)
Definition TrackPayload_validate (body : TrackPayload) : result TrackPayload :=
  match validate_event (event body) with
  | ValueError msg => ValueError msg
  | Ok v => Ok {| event := v; value := value body;
                  service := service body; status := status body |}
  end.

(** The module-level state: [STORE] and the two metrics of [REGISTRY]. *)
Record App := {
  STORE : MetricsStore.t;
  EVENT_COUNT : Counter;
  EVENT_LATENCY : Histogram
}.

Definition startup : App :=
  {| STORE := MetricsStore.init 300 500; EVENT_COUNT := []; EVENT_LATENCY := [] |}.

Inductive Response : Type :=
| ok_true
| unprocessable (msg : string).

(** The route function [track]; [ts] is the clock reading inside [STORE.track]. *)
Definition track (ts : float) (payload : TrackPayload) (app : App) : Response * App :=
  let store := MetricsStore.track ts (event payload) (value payload)
                 (service payload) (status payload) (STORE app) in
  let labels := (event payload, or_empty (service payload), or_empty (status payload)) in
  let count := inc labels (EVENT_COUNT app) in
  let latency :=
    match value payload with
    | Some v => observe labels v (EVENT_LATENCY app)
    | None => EVENT_LATENCY app
    end in
  (ok_true, {| STORE := store; EVENT_COUNT := count; EVENT_LATENCY := latency |}).

(** [POST /track]: the framework builds the [TrackPayload] argument from the
    body and answers a validation error itself, without calling the route,
    when the model cannot be built. *)
Definition post_track (ts : float) (body : TrackPayload) (app : App) : Response * App :=
  match TrackPayload_validate body with
  | ValueError msg => (unprocessable msg, app)
  | Ok payload => track ts payload app
  end.

Definition serve (app : App) (req : float * TrackPayload) : App :=
  snd (post_track (fst req) (snd req) app).

Definition serve_all (reqs : list (float * TrackPayload)) (app : App) : App :=
  fold_left serve reqs app.

(** ** Histories of store operations *)

Inductive Op : Type :=
| Track (ts : float) (event : str) (value : option float) (service status : option str)
| Snapshot
| Series (now : float).

(** The store an operation leaves: [series] changes nothing, [snapshot]
    leaves the factory values its reads inserted. *)
Definition exec (st : MetricsStore.t) (op : Op) : MetricsStore.t :=
  match op with
  | Track ts e v s t => MetricsStore.track ts e v s t st
  | Snapshot => snd (MetricsStore.snapshot st)
  | Series _ => st
  end.

Definition run (ops : list Op) (st : MetricsStore.t) : MetricsStore.t :=
  fold_left exec ops st.

Definition op_key (op : Op) : option LabelKey :=
  match op with
  | Track _ e _ s t => Some (e, or_empty s, or_empty t)
  | _ => None
  end.

Definition tracks (key : LabelKey) (op : Op) : bool :=
  match op_key op with
  | Some k => if eq_dec k key then true else false
  | None => false
  end.

(** The [track] calls of a history made for [key]. *)
Definition calls_for (key : LabelKey) (ops : list Op) : list Op := filter (tracks key) ops.

Definition op_point (op : Op) : list point :=
  match op with
  | Track ts _ (Some v) _ _ => [(ts, v)]
  | _ => []
  end.

(** The (timestamp, value) pairs supplied for [key], oldest first. *)
Definition points_for (key : LabelKey) (ops : list Op) : list point :=
  flat_map op_point (calls_for key ops).

Definition values_for (key : LabelKey) (ops : list Op) : list float :=
  map snd (points_for key ops).

(** The keys some [track] call of the history was made for. *)
Definition seen (key : LabelKey) (ops : list Op) : Prop :=
  exists op, In op ops /\ op_key op = Some key.

(** The valid [/track] requests of a list, as the store calls they make. *)
Definition accepted (reqs : list (float * TrackPayload)) : list Op :=
  flat_map (fun req =>
    match TrackPayload_validate (snd req) with
    | Ok p => [Track (fst req) (event p) (value p) (service p) (status p)]
    | ValueError _ => []
    end) reqs.

(** ** Reading rows and series *)

Definition row_key (r : Row) : LabelKey := (row_event r, row_service r, row_status r).

Definition rows_for (key : LabelKey) (rows : list Row) : list Row :=
  filter (fun r => if eq_dec (row_key r) key then true else false) rows.

(** The last [n] items of a list. *)
Definition lastn {A} (n : nat) (l : list A) : list A := skipn (length l - n) l.

(** The float sum of the values in call order, from [float()]. *)
Definition fsum (vs : list float) : float :=
  fold_left (fun s v => (s + v)%float) vs 0%float.

Definition is_lower_bound (m : float) (vs : list float) : Prop :=
  forall v, In v vs -> (m <=? v)%float = true.

Definition is_upper_bound (m : float) (vs : list float) : Prop :=
  forall v, In v vs -> (v <=? m)%float = true.


(** ** What a store holds for a key *)

Definition count_of (st : MetricsStore.t) (key : LabelKey) : nat :=
  value_of 0 key (MetricsStore._counts st).

Definition n_of (st : MetricsStore.t) (key : LabelKey) : nat :=
  value_of 0 key (MetricsStore._n st).

Definition sum_of (st : MetricsStore.t) (key : LabelKey) : float :=
  value_of 0%float key (MetricsStore._sum st).

Definition min_of (st : MetricsStore.t) (key : LabelKey) : float :=
  value_of infinity key (MetricsStore._min st).

Definition max_of (st : MetricsStore.t) (key : LabelKey) : float :=
  value_of neg_infinity key (MetricsStore._max st).

Definition series_of (st : MetricsStore.t) (key : LabelKey) : list point :=
  value_of [] key (MetricsStore._series st).

(** The row [snapshot] builds for an item of [_counts], written with what the
    store holds for the item's key. *)
Definition row_of (st : MetricsStore.t) (item : LabelKey * nat) : Row :=
  let key := fst item in
  {| row_event := fst (fst key); row_service := snd (fst key); row_status := snd key;
     row_count := snd item;
     row_samples := n_of st key;
     row_avg := match n_of st key with
                | O => None
                | S _ => Some (sum_of st key / float_of_nat (n_of st key))%float
                end;
     row_min := if negb (min_of st key =? infinity)%float
                then Some (min_of st key) else None;
     row_max := if negb (max_of st key =? neg_infinity)%float
                then Some (max_of st key) else None |}.

(** Two stores no read can tell apart: the same items of [_counts] and
    [_series], and the same value for every key of the other dictionaries. *)
Definition same_reads (a b : MetricsStore.t) : Prop :=
  MetricsStore._counts a = MetricsStore._counts b /\
  MetricsStore._series a = MetricsStore._series b /\
  MetricsStore._series_max a = MetricsStore._series_max b /\
  MetricsStore._series_window a = MetricsStore._series_window b /\
  forall key, n_of a key = n_of b key /\ sum_of a key = sum_of b key /\
              min_of a key = min_of b key /\ max_of a key = max_of b key.

(** The accumulators after a list of values, from a starting value. *)
Definition running_sum (vs : list float) (s : float) : float :=
  fold_left (fun s v => (s + v)%float) vs s.

Definition running_min (vs : list float) (m : float) : float :=
  fold_left (fun m v => if (v <? m)%float then v else m) vs m.

Definition running_max (vs : list float) (m : float) : float :=
  fold_left (fun m v => if (m <? v)%float then v else m) vs m.

Definition deque_extend (maxlen : nat) (ps : list point) (dq : list point) : list point :=
  fold_left (fun dq p => deque_append maxlen p dq) ps dq.

(** ** Statements about rows *)

Definition supplies_value (op : Op) : bool :=
  match op with
  | Track _ _ (Some _) _ _ => true
  | _ => false
  end.

(** [track] called for one key with each (timestamp, value) of a list, in order. *)
Definition track_all (e : str) (s t : option str) (ps : list point) : list Op :=
  map (fun p => Track (fst p) e (Some (snd p)) s t) ps.

(** The rows hold exactly one row for [key], whose samples, min, max and avg
    are the number, a least element, a greatest element and the float mean of
    the values [vs]. *)
Definition reports_extrema (rows : list Row) (key : LabelKey) (vs : list float) : Prop :=
  exists r m M,
    rows_for key rows = [r] /\
    row_samples r = length vs /\
    row_min r = Some m /\ In m vs /\ is_lower_bound m vs /\
    row_max r = Some M /\ In M vs /\ is_upper_bound M vs /\
    row_avg r = Some (fsum vs / float_of_nat (length vs))%float.

(** An operation that only reads the store. *)
Definition is_read (op : Op) : bool :=
  match op with
  | Track _ _ _ _ _ => false
  | Snapshot | Series _ => true
  end.

(** ** Writes, and the entries of an event *)

Definition is_track (op : Op) : bool := negb (is_read op).

(** The [track] calls of a history, reads left out. *)
Definition writes (ops : list Op) : list Op := filter is_track ops.

(** The entry [series] builds for one item of [_series] under event [e]:
    none when the key has another event or no point within the window. *)
Definition entry_for (cutoff : float) (e : str) (item : LabelKey * list point)
    : list SeriesEntry :=
  if eq_dec (fst (fst (fst item))) e
  then match filter (in_window cutoff) (snd item) with
       | [] => []
       | pts => [{| entry_service := snd (fst (fst item)); entry_status := snd (fst item);
                    entry_points := pts |}]
       end
  else [].

Definition entries_for (cutoff : float) (e : str) (d : dict LabelKey (list point))
    : list SeriesEntry :=
  flat_map (entry_for cutoff e) d.

Definition entry_labels (en : SeriesEntry) : str * str :=
  (entry_service en, entry_status en).

(** Points in the order of their timestamps. *)
Definition by_time (p q : point) : Prop := (fst p <=? fst q)%float = true.

(** ** The JSON routes *)

(** [GET /api/metrics.json]: the content handed to [JSONResponse] and the
    application state the call leaves; [utcnow] is
    [datetime.datetime.utcnow().isoformat()]. *)
Definition metrics_json (utcnow : string) (app : App) : (string * list Row) * App :=
  let server_time := (utcnow ++ "Z")%string in
  let '(rows, store) := MetricsStore.snapshot (STORE app) in
  ((server_time, rows),
   {| STORE := store; EVENT_COUNT := EVENT_COUNT app; EVENT_LATENCY := EVENT_LATENCY app |}).

(** [GET /api/series.json]; [now] is the reading of [time.time()] inside
    [STORE.series]. *)
Definition series_json (utcnow : string) (now : float) (app : App)
    : (string * dict str (list SeriesEntry)) * App :=
  let server_time := (utcnow ++ "Z")%string in
  ((server_time, MetricsStore.series now (STORE app)), app).

Inductive Request : Type :=
| POST_track (ts : float) (body : TrackPayload)
| GET_metrics_json (utcnow : string)
| GET_series_json (utcnow : string) (now : float).

(** The application state a request leaves. *)
Definition handle (app : App) (req : Request) : App :=
  match req with
  | POST_track ts body => snd (post_track ts body app)
  | GET_metrics_json utcnow => snd (metrics_json utcnow app)
  | GET_series_json utcnow now => snd (series_json utcnow now app)
  end.

Definition handle_all (reqs : list Request) (app : App) : App := fold_left handle reqs app.

(** The store operations a list of requests makes. *)
Definition store_ops (reqs : list Request) : list Op :=
  flat_map (fun req =>
    match req with
    | POST_track ts body =>
        match TrackPayload_validate body with
        | Ok p => [Track ts (event p) (value p) (service p) (status p)]
        | ValueError _ => []
        end
    | GET_metrics_json _ => [Snapshot]
    | GET_series_json _ now => [Series now]
    end) reqs.

(** A call that does not supply NaN. *)
Definition not_nan_call (op : Op) : bool :=
  match op with
  | Track _ _ (Some v) _ _ => negb (is_nan v)
  | _ => true
  end.

(** * Facts *)

(** ** Dictionaries *)

Section DictFacts.
Context {K V : Type} `{EqDec K}.
Implicit Types (k : K) (v : V) (d : dict K V).

Lemma get_setitem_same k v d : get k (setitem k v d) = Some v.
Proof.
  induction d as [|[k' v'] r IH]; simpl.
  - destruct (eq_dec k k); congruence.
  - destruct (eq_dec k k') as [->|Hne]; simpl.
    + destruct (eq_dec k' k'); congruence.
    + destruct (eq_dec k k'); congruence.
Qed.

Lemma get_setitem_other k k' v d : k' <> k -> get k' (setitem k v d) = get k' d.
Proof.
  intros Hne. induction d as [|[k0 v0] r IH]; simpl.
  - destruct (eq_dec k' k); congruence.
  - destruct (eq_dec k k0) as [->|Hk]; simpl.
    + destruct (eq_dec k' k0); congruence.
    + destruct (eq_dec k' k0); congruence.
Qed.

Lemma get_None_keys k d : get k d = None <-> ~ In k (keys d).
Proof.
  induction d as [|[k' v'] r IH]; simpl.
  - tauto.
  - destruct (eq_dec k k') as [->|Hne].
    + split; [discriminate | intros Hn; exfalso; apply Hn; now left].
    + rewrite IH. split; [intros Hn [E|Hin]; congruence | tauto].
Qed.

Lemma get_Some_keys k v d : get k d = Some v -> In k (keys d).
Proof.
  intros Hg. destruct (in_dec eq_dec k (keys d)) as [Hin|Hn]; [exact Hin|].
  apply get_None_keys in Hn. congruence.
Qed.

(** Writing a present key keeps the keys; writing a new key adds it last. *)
Lemma keys_setitem k v d :
  keys (setitem k v d) = match get k d with Some _ => keys d | None => keys d ++ [k] end.
Proof.
  induction d as [|[k' v'] r IH]; simpl; [reflexivity|].
  destruct (eq_dec k k') as [->|Hne]; simpl; [reflexivity|].
  rewrite IH. now destruct (get k r).
Qed.

Lemma In_keys_setitem k k' v d : In k' (keys (setitem k v d)) <-> k' = k \/ In k' (keys d).
Proof.
  rewrite keys_setitem. destruct (get k d) eqn:Hg.
  - split; [tauto|]. intros [->|Hin]; [|exact Hin]. eapply get_Some_keys; eauto.
  - rewrite in_app_iff. simpl. intuition congruence.
Qed.

Lemma NoDup_keys_setitem k v d : NoDup (keys d) -> NoDup (keys (setitem k v d)).
Proof.
  intros Hnd. rewrite keys_setitem. destruct (get k d) eqn:Hg; [exact Hnd|].
  apply get_None_keys in Hg.
  apply NoDup_rev in Hnd. rewrite <- (rev_involutive (keys d ++ [k])).
  apply NoDup_rev. rewrite rev_app_distr. simpl. constructor; [|exact Hnd].
  now rewrite <- in_rev.
Qed.

Lemma value_of_get dflt k d :
  value_of dflt k d = match get k d with Some v => v | None => dflt end.
Proof. unfold value_of, getitem. now destruct (get k d). Qed.

(** After a read the key is present with the value that was read. *)
Lemma get_getitem_same dflt k d :
  get k (snd (getitem dflt k d)) = Some (value_of dflt k d).
Proof.
  rewrite value_of_get. unfold getitem. destruct (get k d) eqn:Hg; simpl.
  - exact Hg.
  - apply get_setitem_same.
Qed.

Lemma get_getitem_other dflt k k' d :
  k' <> k -> get k' (snd (getitem dflt k d)) = get k' d.
Proof.
  intros Hne. unfold getitem. destruct (get k d); simpl; [reflexivity|].
  now apply get_setitem_other.
Qed.

(** A read never changes what any later read yields. *)
Lemma value_of_getitem dflt k k' d :
  value_of dflt k' (snd (getitem dflt k d)) = value_of dflt k' d.
Proof.
  destruct (eq_dec k' k) as [->|Hne].
  - rewrite (value_of_get dflt k (snd _)), get_getitem_same. reflexivity.
  - rewrite !value_of_get, get_getitem_other by exact Hne. reflexivity.
Qed.

Lemma In_keys_getitem dflt k k' d :
  In k' (keys (snd (getitem dflt k d))) <-> k' = k \/ In k' (keys d).
Proof.
  unfold getitem. destruct (get k d) eqn:Hg; simpl.
  - split; [tauto|]. intros [->|Hin]; [|exact Hin]. eapply get_Some_keys; eauto.
  - apply In_keys_setitem.
Qed.

Lemma NoDup_keys_getitem dflt k d :
  NoDup (keys d) -> NoDup (keys (snd (getitem dflt k d))).
Proof.
  unfold getitem. destruct (get k d); simpl; [tauto|]. apply NoDup_keys_setitem.
Qed.

Lemma value_of_setitem_same dflt k v d : value_of dflt k (setitem k v d) = v.
Proof. now rewrite value_of_get, get_setitem_same. Qed.

Lemma value_of_setitem_other dflt k k' v d :
  k' <> k -> value_of dflt k' (setitem k v d) = value_of dflt k' d.
Proof. intros Hne. now rewrite !value_of_get, get_setitem_other. Qed.

End DictFacts.

(** ** Reads of the store *)

Lemma getitem_eq {K V} `{EqDec K} (dflt : V) (k : K) (d d' : dict K V) v :
  getitem dflt k d = (v, d') -> v = value_of dflt k d /\ d' = snd (getitem dflt k d).
Proof. intros E. unfold value_of. rewrite E. auto. Qed.

Lemma same_reads_refl st : same_reads st st.
Proof. repeat split. Qed.

Lemma same_reads_trans a b c : same_reads a b -> same_reads b c -> same_reads a c.
Proof.
  intros (H1 & H2 & H3 & H4 & H5) (G1 & G2 & G3 & G4 & G5).
  repeat split; try congruence;
    destruct (H5 key) as (?&?&?&?), (G5 key) as (?&?&?&?); congruence.
Qed.

Lemma row_of_same_reads a b item : same_reads a b -> row_of a item = row_of b item.
Proof.
  intros (_ & _ & _ & _ & H). unfold row_of.
  destruct (H (fst item)) as (-> & -> & -> & ->). reflexivity.
Qed.

Lemma average_spec key n d :
  fst (MetricsStore.average key n d)
    = match n with
      | O => None
      | S _ => Some (value_of 0%float key d / float_of_nat n)%float
      end /\
  forall k, value_of 0%float k (snd (MetricsStore.average key n d)) = value_of 0%float k d.
Proof.
  unfold MetricsStore.average. destruct n; [split; reflexivity|].
  destruct (getitem 0%float key d) as [s d'] eqn:E.
  apply getitem_eq in E as [-> ->]. split; [reflexivity|].
  intros k. apply value_of_getitem.
Qed.

Lemma unless_sentinel_spec sentinel key d :
  fst (MetricsStore.unless_sentinel sentinel key d)
    = (if negb (value_of sentinel key d =? sentinel)%float
       then Some (value_of sentinel key d) else None) /\
  forall k, value_of sentinel k (snd (MetricsStore.unless_sentinel sentinel key d))
            = value_of sentinel k d.
Proof.
  unfold MetricsStore.unless_sentinel.
  destruct (getitem sentinel key d) as [m d1] eqn:E1.
  apply getitem_eq in E1 as [-> ->].
  destruct (negb (value_of sentinel key d =? sentinel)%float).
  - destruct (getitem sentinel key (snd (getitem sentinel key d))) as [m' d2] eqn:E2.
    apply getitem_eq in E2 as [-> ->]. cbn [fst snd]. split.
    + now rewrite value_of_getitem.
    + intros k. now rewrite !value_of_getitem.
  - split; [reflexivity|]. intros k. apply value_of_getitem.
Qed.

(** One turn of the loop of [snapshot] builds [row_of] and leaves a store
    that reads the same. *)
Lemma snapshot_row_spec key count st :
  fst (MetricsStore.snapshot_row key count st) = row_of st (key, count) /\
  same_reads st (snd (MetricsStore.snapshot_row key count st)).
Proof.
  destruct key as [[e s] t]. unfold MetricsStore.snapshot_row.
  destruct (getitem _ _ (MetricsStore._n st)) as [n d_n] eqn:En.
  apply getitem_eq in En as [-> ->].
  destruct (average_spec (e, s, t) (value_of 0 (e, s, t) (MetricsStore._n st))
              (MetricsStore._sum st)) as [Ha Hs].
  destruct (MetricsStore.average _ _ _) as [avg d_sum].
  destruct (unless_sentinel_spec infinity (e, s, t) (MetricsStore._min st)) as [Hm Hmin].
  destruct (MetricsStore.unless_sentinel infinity _ _) as [vmin d_min].
  destruct (unless_sentinel_spec neg_infinity (e, s, t) (MetricsStore._max st)) as [HM Hmax].
  destruct (MetricsStore.unless_sentinel neg_infinity _ _) as [vmax d_max].
  cbn [fst snd] in *. subst avg vmin vmax. split; [reflexivity|].
  repeat split; unfold n_of, sum_of, min_of, max_of; cbn; auto.
  symmetry. apply value_of_getitem.
Qed.

Lemma snapshot_loop_spec items : forall out st,
  fst (MetricsStore.snapshot_loop items out st) = out ++ map (row_of st) items /\
  same_reads st (snd (MetricsStore.snapshot_loop items out st)).
Proof.
  induction items as [|[key count] rest IH]; intros out st; simpl.
  - rewrite app_nil_r. split; [reflexivity | apply same_reads_refl].
  - destruct (snapshot_row_spec key count st) as [Hr Hs].
    destruct (MetricsStore.snapshot_row key count st) as [row st']. cbn [fst snd] in *.
    destruct (IH (out ++ [row]) st') as [Hr' Hs']. split.
    + rewrite Hr', Hr, <- app_assoc. simpl. f_equal. f_equal.
      apply map_ext. intros item. symmetry. now apply row_of_same_reads.
    + eapply same_reads_trans; eauto.
Qed.

(** [snapshot] returns one row per item of [_counts], in order. *)
Lemma snapshot_rows st :
  fst (MetricsStore.snapshot st) = map (row_of st) (MetricsStore._counts st).
Proof. unfold MetricsStore.snapshot. now rewrite (proj1 (snapshot_loop_spec _ [] st)). Qed.

Lemma snapshot_same_reads st : same_reads st (snd (MetricsStore.snapshot st)).
Proof. apply snapshot_loop_spec. Qed.

(** ** Writes of the store *)

Ltac read_item :=
  match goal with
  | |- context [getitem ?dflt ?k ?d] =>
      let v := fresh "v" in let d' := fresh "d" in let E := fresh "E" in
      destruct (getitem dflt k d) as [v d'] eqn:E;
      apply getitem_eq in E as [-> ->]
  end.

Ltac by_key key k :=
  destruct (eq_dec key k) as [<-|?];
  [ rewrite ?value_of_setitem_same, ?value_of_getitem
  | rewrite ?value_of_setitem_other, ?value_of_getitem by congruence ].

Lemma incr_value key k d :
  value_of 0 k (MetricsStore.incr key d)
  = value_of 0 k d + (if eq_dec key k then 1 else 0).
Proof. unfold MetricsStore.incr. read_item. by_key key k; lia. Qed.

Lemma incr_keys key k d :
  In k (keys (MetricsStore.incr key d)) <-> k = key \/ In k (keys d).
Proof.
  unfold MetricsStore.incr. read_item.
  rewrite In_keys_setitem, In_keys_getitem. tauto.
Qed.

Lemma incr_NoDup key d : NoDup (keys d) -> NoDup (keys (MetricsStore.incr key d)).
Proof.
  intros Hnd. unfold MetricsStore.incr. read_item.
  now apply NoDup_keys_setitem, NoDup_keys_getitem.
Qed.

Lemma add_value_value key v k d :
  value_of 0%float k (MetricsStore.add_value key v d)
  = if eq_dec key k then (value_of 0%float k d + v)%float else value_of 0%float k d.
Proof. unfold MetricsStore.add_value. read_item. by_key key k; reflexivity. Qed.

Lemma lower_value key v k d :
  value_of infinity k (MetricsStore.lower key v d)
  = if eq_dec key k then running_min [v] (value_of infinity k d)
    else value_of infinity k d.
Proof.
  unfold MetricsStore.lower, running_min. read_item. simpl.
  destruct (eq_dec key k) as [<-|Hne];
    destruct (v <? value_of infinity key d)%float;
    rewrite ?value_of_setitem_same, ?value_of_setitem_other, ?value_of_getitem by congruence;
    reflexivity.
Qed.

Lemma raise_value key v k d :
  value_of neg_infinity k (MetricsStore.raise key v d)
  = if eq_dec key k then running_max [v] (value_of neg_infinity k d)
    else value_of neg_infinity k d.
Proof.
  unfold MetricsStore.raise, running_max. read_item. simpl.
  destruct (eq_dec key k) as [<-|Hne];
    destruct (value_of neg_infinity key d <? v)%float;
    rewrite ?value_of_setitem_same, ?value_of_setitem_other, ?value_of_getitem by congruence;
    reflexivity.
Qed.

Lemma push_value cap key p k (d : dict LabelKey (list point)) :
  value_of [] k (MetricsStore.push cap key p d)
  = if eq_dec key k then deque_append cap p (value_of [] k d) else value_of [] k d.
Proof. unfold MetricsStore.push. read_item. by_key key k; reflexivity. Qed.

(** *** Histories *)

Lemma calls_for_app key a b : calls_for key (a ++ b) = calls_for key a ++ calls_for key b.
Proof. apply filter_app. Qed.

Lemma points_for_app key a b :
  points_for key (a ++ b) = points_for key a ++ points_for key b.
Proof. unfold points_for. now rewrite calls_for_app, flat_map_app. Qed.

Lemma values_for_app key a b :
  values_for key (a ++ b) = values_for key a ++ values_for key b.
Proof. unfold values_for. now rewrite points_for_app, map_app. Qed.

Lemma length_values_for key ops : length (values_for key ops) = length (points_for key ops).
Proof. apply length_map. Qed.

Lemma calls_for_track key ts e v s t :
  calls_for key [Track ts e v s t]
  = if eq_dec (e, or_empty s, or_empty t) key then [Track ts e v s t] else [].
Proof. unfold calls_for, tracks. simpl. now destruct (eq_dec _ key). Qed.

(** What one operation does to what the store holds for a key. *)
Lemma exec_effect st op key :
  count_of (exec st op) key = count_of st key + length (calls_for key [op]) /\
  n_of (exec st op) key = n_of st key + length (values_for key [op]) /\
  sum_of (exec st op) key = running_sum (values_for key [op]) (sum_of st key) /\
  min_of (exec st op) key = running_min (values_for key [op]) (min_of st key) /\
  max_of (exec st op) key = running_max (values_for key [op]) (max_of st key) /\
  series_of (exec st op) key
    = deque_extend (MetricsStore._series_max st) (points_for key [op]) (series_of st key).
Proof.
  destruct op as [ts e v s t| |now].
  - unfold values_for, points_for. rewrite calls_for_track.
    unfold count_of, n_of, sum_of, min_of, max_of, series_of, exec, MetricsStore.track.
    destruct v as [v|]; cbn [MetricsStore._counts MetricsStore._n MetricsStore._sum
      MetricsStore._min MetricsStore._max MetricsStore._series];
      rewrite ?incr_value, ?add_value_value, ?lower_value, ?raise_value, ?push_value;
      destruct (eq_dec (e, or_empty s, or_empty t) key); simpl; repeat split; lia.
  - destruct (snapshot_same_reads st) as (Hc & Hs & _ & _ & H).
    destruct (H key) as (Hn & Hsum & Hmin & Hmax).
    unfold count_of, series_of, exec. rewrite <- Hc, <- Hs, <- Hn, <- Hsum, <- Hmin, <- Hmax.
    simpl. repeat split; lia.
  - simpl. repeat split; lia.
Qed.

Lemma exec_config st op :
  MetricsStore._series_max (exec st op) = MetricsStore._series_max st /\
  MetricsStore._series_window (exec st op) = MetricsStore._series_window st.
Proof.
  destruct op as [ts e [v|] s t| |now]; simpl; auto.
  destruct (snapshot_same_reads st) as (_ & _ & Hm & Hw & _). auto.
Qed.

(** What a history does to what the store holds for a key: every accumulator
    is the fold, over the calls made for the key, of its one-call update. *)
Lemma run_effect ops : forall st key,
  count_of (run ops st) key = count_of st key + length (calls_for key ops) /\
  n_of (run ops st) key = n_of st key + length (values_for key ops) /\
  sum_of (run ops st) key = running_sum (values_for key ops) (sum_of st key) /\
  min_of (run ops st) key = running_min (values_for key ops) (min_of st key) /\
  max_of (run ops st) key = running_max (values_for key ops) (max_of st key) /\
  series_of (run ops st) key
    = deque_extend (MetricsStore._series_max st) (points_for key ops) (series_of st key).
Proof.
  induction ops as [|op ops IH]; intros st key.
  - simpl. repeat split; lia.
  - change (op :: ops) with ([op] ++ ops).
    rewrite calls_for_app, values_for_app, points_for_app, !length_app.
    unfold running_sum, running_min, running_max, deque_extend.
    rewrite !fold_left_app.
    destruct (exec_effect st op key) as (E1 & E2 & E3 & E4 & E5 & E6).
    destruct (IH (exec st op) key) as (I1 & I2 & I3 & I4 & I5 & I6).
    rewrite (proj1 (exec_config st op)) in I6.
    change (run ([op] ++ ops) st) with (run ops (exec st op)).
    rewrite I1, I2, I3, I4, I5, I6, E1, E2, E3, E4, E5, E6.
    repeat split; lia.
Qed.

(** *** The keys of [_counts] *)

Lemma exec_keys st op k :
  In k (keys (MetricsStore._counts (exec st op)))
  <-> In k (keys (MetricsStore._counts st)) \/ op_key op = Some k.
Proof.
  destruct op as [ts e v s t| |now]; simpl.
  - assert (E : MetricsStore._counts (MetricsStore.track ts e v s t st)
                = MetricsStore.incr (e, or_empty s, or_empty t) (MetricsStore._counts st))
      by now destruct v.
    rewrite E, incr_keys. split; intros [H|H]; auto; [right|left]; congruence.
  - rewrite <- (proj1 (snapshot_same_reads st)). split; [auto | intros [?|?]; [auto|discriminate]].
  - split; [auto | intros [?|?]; [auto|discriminate]].
Qed.

Lemma exec_NoDup st op :
  NoDup (keys (MetricsStore._counts st)) -> NoDup (keys (MetricsStore._counts (exec st op))).
Proof.
  intros Hnd. destruct op as [ts e v s t| |now]; simpl.
  - destruct v; simpl; now apply incr_NoDup.
  - now rewrite <- (proj1 (snapshot_same_reads st)).
  - exact Hnd.
Qed.

Lemma run_keys ops : forall st k,
  In k (keys (MetricsStore._counts (run ops st)))
  <-> In k (keys (MetricsStore._counts st)) \/ seen k ops.
Proof.
  unfold seen. induction ops as [|op ops IH]; intros st k; simpl.
  - split; [auto | intros [?|(? & [] & _)]; auto].
  - rewrite IH, exec_keys. split.
    + intros [[H|H]|(o & Hin & Ho)]; eauto 6.
    + intros [H|(o & [->|Hin] & Ho)]; eauto 6.
Qed.

Lemma run_NoDup ops : forall st,
  NoDup (keys (MetricsStore._counts st)) -> NoDup (keys (MetricsStore._counts (run ops st))).
Proof.
  induction ops as [|op ops IH]; intros st Hnd; simpl; [exact Hnd|].
  now apply IH, exec_NoDup.
Qed.

Lemma seen_calls_for key ops : seen key ops <-> calls_for key ops <> [].
Proof.
  unfold seen, calls_for. split.
  - intros (op & Hin & Hk) E.
    assert (Hf : In op (filter (tracks key) ops)).
    { apply filter_In. split; [exact Hin|]. unfold tracks. rewrite Hk.
      now destruct (eq_dec key key). }
    rewrite E in Hf. destruct Hf.
  - destruct (filter (tracks key) ops) as [|op l] eqn:E; [congruence|]. intros _.
    assert (Hf : In op (filter (tracks key) ops)) by (rewrite E; now left).
    apply filter_In in Hf as [Hin Ht]. exists op. split; [exact Hin|].
    unfold tracks in Ht. destruct (op_key op) as [k|]; [|discriminate].
    destruct (eq_dec k key); congruence.
Qed.

(** *** From the initial store *)

Lemma count_of_item st key c :
  get key (MetricsStore._counts st) = Some c -> c = count_of st key.
Proof. intros Hg. unfold count_of. now rewrite value_of_get, Hg. Qed.

Lemma row_key_row_of st item : row_key (row_of st item) = fst item.
Proof. destruct item as [[[e s] t] c]. reflexivity. Qed.

(** The rows of a key in the rows built from a dictionary of counts. *)
Lemma rows_for_map st key (d : dict LabelKey nat) :
  NoDup (keys d) ->
  rows_for key (map (row_of st) d)
  = match get key d with Some c => [row_of st (key, c)] | None => [] end.
Proof.
  unfold rows_for. induction d as [|[k c] r IH]; intros Hnd; simpl; [reflexivity|].
  inversion Hnd as [|? ? Hnin Hnd']; subst. rewrite row_key_row_of. cbn [fst].
  destruct (eq_dec k key) as [->|Hne].
  - destruct (eq_dec key key) as [_|]; [|congruence].
    rewrite (IH Hnd'). apply get_None_keys in Hnin. now rewrite Hnin.
  - destruct (eq_dec key k) as [|_]; [congruence|]. now apply IH.
Qed.

(** The rows [snapshot] returns for a key after a history from the initial
    store: none when no call was made for the key, else one. *)
Lemma snapshot_rows_for w cap ops key :
  let st := run ops (MetricsStore.init w cap) in
  rows_for key (fst (MetricsStore.snapshot st))
  = match calls_for key ops with
    | [] => []
    | _ :: _ => [row_of st (key, length (calls_for key ops))]
    end.
Proof.
  intros st. rewrite snapshot_rows, rows_for_map
    by (apply run_NoDup; constructor).
  destruct (run_effect ops (MetricsStore.init w cap) key) as (Hc & _).
  fold st in Hc. simpl in Hc.
  destruct (get key (MetricsStore._counts st)) as [c|] eqn:Hg.
  - apply count_of_item in Hg as Hc'. rewrite Hc' , Hc.
    assert (Hs : seen key ops).
    { apply get_Some_keys in Hg. apply run_keys in Hg as [[]|Hs]. exact Hs. }
    apply seen_calls_for in Hs. destruct (calls_for key ops); congruence.
  - destruct (calls_for key ops) as [|op l] eqn:E; [reflexivity|].
    assert (Hs : seen key ops) by (apply seen_calls_for; congruence).
    apply get_None_keys in Hg. exfalso. apply Hg. apply run_keys. now right.
Qed.

(** ** The order of floats

    The comparisons of primitive floats are those of their [spec_float]
    images; on floats other than NaN they form a total preorder. *)

Module FloatOrder.

Ltac compare_cases :=
  repeat match goal with
  | |- context [Z.compare ?a ?b] => destruct (Z.compare_spec a b); subst
  | |- context [Pos.compare_cont Eq ?a ?b] =>
      change (Pos.compare_cont Eq a b) with (Pos.compare a b);
      destruct (Pos.compare_spec a b); subst
  end.

Ltac by_cases :=
  unfold SFleb, SFltb, SFeqb, SFcompare;
  repeat match goal with
  | |- forall x : spec_float, _ => intros [[]|[]| |[] ? ?]
  end;
  try easy; compare_cases; simpl; try easy; try lia.

Lemma SFleb_refl x : SFeqb x x = true -> SFleb x x = true.
Proof. revert x. by_cases. Qed.

Lemma SFltb_leb x y : SFltb x y = true -> SFleb x y = true.
Proof. revert x y. by_cases. Qed.

Lemma SFleb_total x y :
  SFeqb x x = true -> SFeqb y y = true -> SFltb x y = false -> SFleb y x = true.
Proof. revert x y. by_cases. Qed.

Lemma SFleb_trans x y z : SFleb x y = true -> SFleb y z = true -> SFleb x z = true.
Proof. revert x y z. by_cases. Qed.

Lemma SFleb_below_infinity x y :
  SFleb x y = true -> SFeqb y (S754_infinity false) = false ->
  SFeqb x (S754_infinity false) = false.
Proof. revert x y. by_cases. Qed.

Lemma SFleb_above_neg_infinity x y :
  SFleb y x = true -> SFeqb y (S754_infinity true) = false ->
  SFeqb x (S754_infinity true) = false.
Proof. revert x y. by_cases. Qed.

Lemma infinity_spec : Prim2SF infinity = S754_infinity false.
Proof. reflexivity. Qed.

Lemma neg_infinity_spec : Prim2SF neg_infinity = S754_infinity true.
Proof. reflexivity. Qed.

Lemma is_nan_spec x : is_nan x = negb (SFeqb (Prim2SF x) (Prim2SF x)).
Proof. unfold is_nan. now rewrite eqb_spec. Qed.

Lemma not_nan_spec x : is_nan x = false <-> SFeqb (Prim2SF x) (Prim2SF x) = true.
Proof. rewrite is_nan_spec. now destruct (SFeqb _ _). Qed.

Lemma leb_refl x : is_nan x = false -> (x <=? x)%float = true.
Proof. rewrite not_nan_spec, leb_spec. apply SFleb_refl. Qed.

Lemma ltb_leb x y : (x <? y)%float = true -> (x <=? y)%float = true.
Proof. rewrite ltb_spec, leb_spec. apply SFltb_leb. Qed.

Lemma leb_total x y :
  is_nan x = false -> is_nan y = false -> (x <? y)%float = false -> (y <=? x)%float = true.
Proof. rewrite !not_nan_spec, ltb_spec, leb_spec. apply SFleb_total. Qed.

Lemma leb_trans x y z :
  (x <=? y)%float = true -> (y <=? z)%float = true -> (x <=? z)%float = true.
Proof. rewrite !leb_spec. apply SFleb_trans. Qed.

(** What is at most a value other than [+inf] is not [+inf]. *)
Lemma leb_below_infinity x y :
  (x <=? y)%float = true -> (y =? infinity)%float = false ->
  (x =? infinity)%float = false.
Proof. rewrite leb_spec, !eqb_spec, infinity_spec. apply SFleb_below_infinity. Qed.

Lemma leb_above_neg_infinity x y :
  (y <=? x)%float = true -> (y =? neg_infinity)%float = false ->
  (x =? neg_infinity)%float = false.
Proof. rewrite leb_spec, !eqb_spec, neg_infinity_spec. apply SFleb_above_neg_infinity. Qed.

End FloatOrder.

(** ** Running minimum and maximum *)

Section Extrema.
Import FloatOrder.

Lemma running_min_spec vs : forall m0,
  is_nan m0 = false -> (forall v, In v vs -> is_nan v = false) ->
  is_nan (running_min vs m0) = false /\
  (running_min vs m0 = m0 \/ In (running_min vs m0) vs) /\
  (running_min vs m0 <=? m0)%float = true /\
  is_lower_bound (running_min vs m0) vs.
Proof.
  unfold is_lower_bound. induction vs as [|v vs IH]; intros m0 Hm0 Hvs.
  - simpl. repeat split; auto using leb_refl; intros v [].
  - assert (Hv : is_nan v = false) by (apply Hvs; now left).
    change (running_min (v :: vs) m0)
      with (running_min vs (if (v <? m0)%float then v else m0)).
    set (m1 := if (v <? m0)%float then v else m0).
    assert (H1 : is_nan m1 = false /\ (m1 = m0 \/ m1 = v) /\
                 (m1 <=? m0)%float = true /\ (m1 <=? v)%float = true).
    { subst m1. destruct (v <? m0)%float eqn:E.
      - repeat split; auto using leb_refl, ltb_leb.
      - repeat split; auto using leb_refl, leb_total. }
    destruct H1 as (Hn1 & Hor1 & Hle0 & Hlev).
    destruct (IH m1 Hn1) as (Hn & Hor & Hle & Hlb).
    { intros x Hx. apply Hvs. now right. }
    repeat split.
    + exact Hn.
    + destruct Hor as [->|Hin]; [|right; now right].
      destruct Hor1 as [->| ->]; [now left | right; now left].
    + eapply leb_trans; eauto.
    + intros x [<-|Hx]; [eapply leb_trans; eauto | auto].
Qed.

Lemma running_max_spec vs : forall m0,
  is_nan m0 = false -> (forall v, In v vs -> is_nan v = false) ->
  is_nan (running_max vs m0) = false /\
  (running_max vs m0 = m0 \/ In (running_max vs m0) vs) /\
  (m0 <=? running_max vs m0)%float = true /\
  is_upper_bound (running_max vs m0) vs.
Proof.
  unfold is_upper_bound. induction vs as [|v vs IH]; intros m0 Hm0 Hvs.
  - simpl. repeat split; auto using leb_refl; intros v [].
  - assert (Hv : is_nan v = false) by (apply Hvs; now left).
    change (running_max (v :: vs) m0)
      with (running_max vs (if (m0 <? v)%float then v else m0)).
    set (m1 := if (m0 <? v)%float then v else m0).
    assert (H1 : is_nan m1 = false /\ (m1 = m0 \/ m1 = v) /\
                 (m0 <=? m1)%float = true /\ (v <=? m1)%float = true).
    { subst m1. destruct (m0 <? v)%float eqn:E.
      - repeat split; auto using leb_refl, ltb_leb.
      - repeat split; auto using leb_refl, leb_total. }
    destruct H1 as (Hn1 & Hor1 & Hle0 & Hlev).
    destruct (IH m1 Hn1) as (Hn & Hor & Hle & Hub).
    { intros x Hx. apply Hvs. now right. }
    repeat split.
    + exact Hn.
    + destruct Hor as [->|Hin]; [|right; now right].
      destruct Hor1 as [->| ->]; [now left | right; now left].
    + eapply leb_trans; eauto.
    + intros x [<-|Hx]; [eapply leb_trans; eauto | auto].
Qed.

(** With no NaN and one value other than [+inf], the minimum from [math.inf]
    is a supplied value other than the sentinel. *)
Lemma running_min_reported vs :
  (forall v, In v vs -> is_nan v = false) ->
  (exists v, In v vs /\ (v =? infinity)%float = false) ->
  (running_min vs infinity =? infinity)%float = false /\
  In (running_min vs infinity) vs /\ is_lower_bound (running_min vs infinity) vs.
Proof.
  intros Hvs (v & Hin & Hfin).
  destruct (running_min_spec vs infinity eq_refl Hvs) as (_ & Hor & _ & Hlb).
  assert (Hne : (running_min vs infinity =? infinity)%float = false)
    by (eapply leb_below_infinity; eauto).
  repeat split; auto.
  destruct Hor as [E|Hin']; [|exact Hin']. rewrite E in Hne. discriminate.
Qed.

Lemma running_max_reported vs :
  (forall v, In v vs -> is_nan v = false) ->
  (exists v, In v vs /\ (v =? neg_infinity)%float = false) ->
  (running_max vs neg_infinity =? neg_infinity)%float = false /\
  In (running_max vs neg_infinity) vs /\ is_upper_bound (running_max vs neg_infinity) vs.
Proof.
  intros Hvs (v & Hin & Hfin).
  destruct (running_max_spec vs neg_infinity eq_refl Hvs) as (_ & Hor & _ & Hub).
  assert (Hne : (running_max vs neg_infinity =? neg_infinity)%float = false)
    by (eapply leb_above_neg_infinity; eauto).
  repeat split; auto.
  destruct Hor as [E|Hin']; [|exact Hin']. rewrite E in Hne. discriminate.
Qed.

End Extrema.

(** ** Rows after a history *)

(** What the store holds for a key after a history from the initial store. *)
Lemma holds_after w cap ops key :
  let st := run ops (MetricsStore.init w cap) in
  count_of st key = length (calls_for key ops) /\
  n_of st key = length (values_for key ops) /\
  sum_of st key = fsum (values_for key ops) /\
  min_of st key = running_min (values_for key ops) infinity /\
  max_of st key = running_max (values_for key ops) neg_infinity /\
  series_of st key = deque_extend cap (points_for key ops) [].
Proof. intros st. exact (run_effect ops (MetricsStore.init w cap) key). Qed.

Lemma calls_for_track_all e s t ps :
  calls_for (e, or_empty s, or_empty t) (track_all e s t ps) = track_all e s t ps.
Proof.
  unfold calls_for, track_all. induction ps as [|p ps IH]; simpl; [reflexivity|].
  unfold tracks at 1. simpl.
  destruct (eq_dec (e, or_empty s, or_empty t) (e, or_empty s, or_empty t)); [|congruence].
  now rewrite IH.
Qed.

Lemma points_for_track_all e s t ps :
  points_for (e, or_empty s, or_empty t) (track_all e s t ps) = ps.
Proof.
  unfold points_for. rewrite calls_for_track_all. unfold track_all.
  induction ps as [|[ts v] ps IH]; simpl; [reflexivity | now rewrite IH].
Qed.

Lemma values_for_track_all e s t ps :
  values_for (e, or_empty s, or_empty t) (track_all e s t ps) = map snd ps.
Proof. unfold values_for. now rewrite points_for_track_all. Qed.

Lemma length_values_supplied key ops :
  length (values_for key ops) = length (filter supplies_value (calls_for key ops)).
Proof.
  rewrite length_values_for. unfold points_for.
  induction (calls_for key ops) as [|op l IH]; simpl; [reflexivity|].
  rewrite length_app, IH. destruct op as [ts e [v|] s t| |now]; reflexivity.
Qed.

(** * Properties of the store *)

(** C1: for every key and every history of operations on a fresh store, with
    at least one [track] call for the key, [snapshot] returns exactly one
    row for the key; its [count] is the number of [track] calls made for the
    key and its [samples] the number of those calls that supplied a value. *)
Theorem snapshot_counts_calls w cap ops key :
  calls_for key ops <> [] ->
  exists r,
    rows_for key (fst (MetricsStore.snapshot (run ops (MetricsStore.init w cap)))) = [r] /\
    row_count r = length (calls_for key ops) /\
    row_samples r = length (filter supplies_value (calls_for key ops)).
Proof.
  intros Hcalls. rewrite snapshot_rows_for.
  destruct (calls_for key ops) as [|op l] eqn:E; [congruence|]. rewrite <- E.
  eexists. split; [reflexivity|]. split; [reflexivity|].
  cbn [row_of row_samples fst].
  destruct (holds_after w cap ops key) as (_ & -> & _).
  apply length_values_supplied.
Qed.

Lemma snapshot_counts_calls_witness :
  let ops := [Track 1 (py "login") (Some 2%float) None None; Snapshot;
              Track 2 (py "login") None (Some []) None;
              Track 3 (py "logout") None None None] in
  let key := (py "login", [], []) in
  calls_for key ops <> [] /\
  exists r,
    rows_for key (fst (MetricsStore.snapshot (run ops (MetricsStore.init 300 500)))) = [r] /\
    row_count r = 2 /\ row_samples r = 1.
Proof.
  intros ops key.
  assert (H : calls_for key ops <> []) by (vm_compute; discriminate).
  split; [exact H|].
  exact (snapshot_counts_calls 300 500 ops key H).
Defined.

(** C2 (as amended): for every key whose supplied values hold no NaN, are
    not all [+inf] and are not all [-inf], [snapshot] reports [min] equal to a
    least supplied value, [max] equal to a greatest one and [avg] equal to the
    float sum of the supplied values, added in call order, divided by their
    number; after the values 3.0, 1.0, 5.0, 1.0 for one key the row has min
    1.0, max 5.0, avg 2.5 and samples 4. *)
Theorem snapshot_extrema :
  (forall w cap ops key,
     (forall v, In v (values_for key ops) -> is_nan v = false) ->
     (exists v, In v (values_for key ops) /\ (v =? infinity)%float = false) ->
     (exists v, In v (values_for key ops) /\ (v =? neg_infinity)%float = false) ->
     reports_extrema (fst (MetricsStore.snapshot (run ops (MetricsStore.init w cap))))
       key (values_for key ops)) /\
  (forall w cap e s t ts1 ts2 ts3 ts4,
     let ops := track_all e s t
                  [(ts1, 3%float); (ts2, 1%float); (ts3, 5%float); (ts4, 1%float)] in
     exists r,
       rows_for (e, or_empty s, or_empty t)
         (fst (MetricsStore.snapshot (run ops (MetricsStore.init w cap)))) = [r] /\
       row_min r = Some 1%float /\ row_max r = Some 5%float /\
       row_avg r = Some 2.5%float /\ row_samples r = 4).
Proof.
  split.
  - intros w cap ops key Hnan Hfin Hfin'. unfold reports_extrema.
    rewrite snapshot_rows_for.
    destruct (holds_after w cap ops key) as (_ & Hn & Hsum & Hmin & Hmax & _).
    destruct (running_min_reported _ Hnan Hfin) as (Em & Hinm & Hlb).
    destruct (running_max_reported _ Hnan Hfin') as (EM & HinM & Hub).
    assert (Hcalls : calls_for key ops <> []).
    { destruct Hfin as (v & Hin & _). unfold values_for, points_for in Hin.
      intros E. rewrite E in Hin. exact Hin. }
    destruct (calls_for key ops) as [|op l] eqn:E; [congruence|]. rewrite <- E.
    exists (row_of (run ops (MetricsStore.init w cap)) (key, length (calls_for key ops))),
      (running_min (values_for key ops) infinity),
      (running_max (values_for key ops) neg_infinity).
    unfold row_of. cbn [fst snd row_samples row_min row_max row_avg].
    rewrite Hn, Hsum, Hmin, Hmax, Em, EM. simpl negb. cbv iota.
    repeat split; auto.
    destruct (values_for key ops) as [|v vs]; [|reflexivity].
    destruct Hfin as (v & [] & _).
  - intros w cap e s t ts1 ts2 ts3 ts4 ops. subst ops. rewrite snapshot_rows_for.
    match goal with |- context [run ?o _] =>
      destruct (holds_after w cap o (e, or_empty s, or_empty t))
        as (_ & Hn & Hsum & Hmin & Hmax & _)
    end.
    rewrite values_for_track_all in Hn, Hsum, Hmin, Hmax.
    rewrite calls_for_track_all.
    eexists. split; [reflexivity|]. unfold row_of.
    cbn [fst snd row_samples row_min row_max row_avg].
    rewrite Hn, Hsum, Hmin, Hmax. repeat split; reflexivity.
Qed.

Lemma snapshot_extrema_witness :
  let ops := [Track 1 (py "db") (Some 0.25%float) None (Some (py "ok"));
              Track 2 (py "db") None None (Some (py "ok"));
              Track 3 (py "db") (Some infinity) None (Some (py "ok"));
              Track 4 (py "db") (Some (-2)%float) None (Some (py "ok"))] in
  let key := (py "db", [], py "ok") in
  (forall v, In v (values_for key ops) -> is_nan v = false) /\
  (exists v, In v (values_for key ops) /\ (v =? infinity)%float = false) /\
  (exists v, In v (values_for key ops) /\ (v =? neg_infinity)%float = false) /\
  reports_extrema (fst (MetricsStore.snapshot (run ops (MetricsStore.init 300 500))))
    key (values_for key ops).
Proof.
  intros ops key.
  assert (Hvs : values_for key ops = [0.25; infinity; -2]%float) by reflexivity.
  assert (Hnan : forall v, In v (values_for key ops) -> is_nan v = false).
  { rewrite Hvs. intros v [<-|[<-|[<-|[]]]]; reflexivity. }
  assert (Hlow : exists v, In v (values_for key ops) /\ (v =? infinity)%float = false).
  { rewrite Hvs. exists 0.25%float. split; [now left | reflexivity]. }
  assert (Hhigh : exists v, In v (values_for key ops) /\ (v =? neg_infinity)%float = false).
  { rewrite Hvs. exists 0.25%float. split; [now left | reflexivity]. }
  split; [exact Hnan|]. split; [exact Hlow|]. split; [exact Hhigh|].
  exact (proj1 snapshot_extrema 300%float 500 ops key Hnan Hlow Hhigh).
Defined.

(** C2 as stated fails where a key received only NaN, and where a key
    received only [+inf]: the row's [min] is null although a value was
    supplied. *)
Lemma snapshot_extrema_counterexample :
  let ops := [Track 1 (py "a") (Some nan) None None;
              Track 2 (py "b") (Some infinity) None None] in
  let rows := fst (MetricsStore.snapshot (run ops (MetricsStore.init 300 500))) in
  values_for (py "a", [], []) ops = [nan] /\
  ~ reports_extrema rows (py "a", [], []) (values_for (py "a", [], []) ops) /\
  values_for (py "b", [], []) ops = [infinity] /\
  ~ reports_extrema rows (py "b", [], []) (values_for (py "b", [], []) ops).
Proof.
  intros ops rows. repeat split.
  - intros (r & m & M & Hr & _ & Hm & _). vm_compute in Hr.
    injection Hr as <-. discriminate Hm.
  - intros (r & m & M & Hr & _ & Hm & _). vm_compute in Hr.
    injection Hr as <-. discriminate Hm.
Qed.

(** ** Bounded series *)

Lemma deque_append_lastn {A} cap (p : A) l :
  deque_append cap p (lastn cap l) = lastn cap (l ++ [p]).
Proof.
  unfold deque_append, lastn. rewrite !length_app, length_skipn. simpl length.
  destruct (Nat.ltb_spec cap (length l - (length l - cap) + 1)) as [Hlt|Hge].
  - change (tl (skipn (length l - cap) l ++ [p]))
      with (skipn 1 (skipn (length l - cap) l ++ [p])).
    rewrite !skipn_app, skipn_skipn, length_skipn.
    f_equal; f_equal; lia.
  - replace (length l - cap) with 0 by lia.
    replace (length l + 1 - cap) with 0 by lia. reflexivity.
Qed.

(** Appending to a fresh bounded deque keeps the last [cap] items, in order. *)
Lemma deque_extend_lastn cap ps : deque_extend cap ps [] = lastn cap ps.
Proof.
  induction ps as [|p ps IH] using rev_ind; [reflexivity|].
  unfold deque_extend in *. rewrite fold_left_app. simpl. rewrite IH.
  apply deque_append_lastn.
Qed.

Lemma length_lastn {A} cap (l : list A) : length (lastn cap l) = Nat.min cap (length l).
Proof. unfold lastn. rewrite length_skipn. lia. Qed.

(** C3: after any history on a fresh store of capacity [cap], the series of a
    key is the last [cap] (timestamp, value) pairs supplied for the key, in
    the order supplied, so it never holds more than [cap] points; when
    [cap + 5] values were supplied it holds exactly [cap] points, the
    supplied ones without the five oldest.  The store of the application has
    capacity 500. *)
Theorem series_bounded w cap ops key :
  let st := run ops (MetricsStore.init w cap) in
  series_of st key = lastn cap (points_for key ops) /\
  length (series_of st key) <= cap /\
  (length (points_for key ops) = cap + 5 ->
   length (series_of st key) = cap /\ series_of st key = skipn 5 (points_for key ops)) /\
  length (series_of (run ops (STORE startup)) key) <= 500.
Proof.
  intros st.
  assert (H : forall w' cap',
             series_of (run ops (MetricsStore.init w' cap')) key
             = lastn cap' (points_for key ops)).
  { intros w' cap'. destruct (holds_after w' cap' ops key) as (_ & _ & _ & _ & _ & ->).
    apply deque_extend_lastn. }
  subst st. unfold startup. cbn [STORE]. rewrite !H, !length_lastn.
  repeat split; try lia.
  unfold lastn. f_equal. lia.
Qed.

Lemma series_bounded_witness :
  let ops := track_all (py "job") None None
               [(1, 10); (2, 20); (3, 30); (4, 40); (5, 50); (6, 60); (7, 70)]%float in
  let key := (py "job", [], []) in
  length (points_for key ops) = 2 + 5 /\
  series_of (run ops (MetricsStore.init 300 2)) key = [(6, 60); (7, 70)]%float.
Proof.
  intros ops key.
  assert (H : length (points_for key ops) = 2 + 5) by reflexivity.
  split; [exact H|].
  destruct (series_bounded 300%float 2 ops key) as (_ & _ & Hfive & _).
  destruct (Hfive H) as [_ ->]. reflexivity.
Defined.

(** ** Windowed series *)

(** One turn of the loop of [series]: a key whose window is empty changes
    nothing, any other key adds one entry at the end of its event's list. *)
Lemma series_item_value cutoff e s t dq out e' :
  value_of [] e' (MetricsStore.series_item cutoff (e, s, t) dq out)
  = match filter (in_window cutoff) dq with
    | [] => value_of [] e' out
    | pts =>
        if eq_dec e e'
        then value_of [] e' out
               ++ [{| entry_service := s; entry_status := t; entry_points := pts |}]
        else value_of [] e' out
    end.
Proof.
  unfold MetricsStore.series_item, setdefault.
  destruct (filter (in_window cutoff) dq) as [|p pts]; [reflexivity|].
  read_item. by_key e e'; reflexivity.
Qed.

Lemma series_item_nonempty cutoff key dq (out : dict str (list SeriesEntry)) :
  (forall e l, get e out = Some l -> l <> []) ->
  forall e l, get e (MetricsStore.series_item cutoff key dq out) = Some l -> l <> [].
Proof.
  intros Hout e' l. destruct key as [[e s] t].
  unfold MetricsStore.series_item, setdefault.
  destruct (filter (in_window cutoff) dq) as [|p pts]; [apply Hout|].
  read_item. destruct (eq_dec e' e) as [->|Hne].
  - rewrite get_setitem_same. intros [= <-]. now destruct (value_of [] e out).
  - rewrite get_setitem_other, get_getitem_other by exact Hne. apply Hout.
Qed.

Lemma series_fold cutoff d : forall out e s t pts,
  In {| entry_service := s; entry_status := t; entry_points := pts |}
     (value_of [] e
        (fold_left (fun out item =>
           MetricsStore.series_item cutoff (fst item) (snd item) out) d out))
  <-> In {| entry_service := s; entry_status := t; entry_points := pts |} (value_of [] e out)
      \/ exists dq, In ((e, s, t), dq) d /\
                    pts = filter (in_window cutoff) dq /\ pts <> [].
Proof.
  induction d as [|[[[e0 s0] t0] dq0] d IH]; intros out e s t pts; simpl.
  - split; [auto | intros [H|(? & [] & _)]; exact H].
  - rewrite IH, series_item_value.
    destruct (filter (in_window cutoff) dq0) as [|p0 pts0] eqn:Ef.
    + split.
      * intros [H|(dq & Hin & Hp)]; [now left | right; exists dq; auto].
      * intros [H|(dq & [[= <- <- <- <-]|Hin] & Hp & Hne)]; [now left | | right; exists dq; auto].
        congruence.
    + rewrite <- Ef. destruct (eq_dec e0 e) as [->|Hne].
      * rewrite in_app_iff. simpl. split.
        -- intros [[H|[[= <- <- <-]|[]]]|(dq & Hin & Hp)]; [now left | | right; exists dq; auto].
           right. exists dq0. repeat split; auto. congruence.
        -- intros [H|(dq & [[= <- <- <-]|Hin] & Hp & Hn)];
             [now do 2 left | | right; exists dq; auto].
           left. right. left. now subst pts.
      * split.
        -- intros [H|(dq & Hin & Hp)]; [now left | right; exists dq; auto].
        -- intros [H|(dq & [[= -> _ _ _]|Hin] & Hp)]; [now left | congruence | right; exists dq; auto].
Qed.

Lemma series_fold_nonempty cutoff d : forall out : dict str (list SeriesEntry),
  (forall e l, get e out = Some l -> l <> []) ->
  forall e l,
    get e (fold_left (fun out item =>
             MetricsStore.series_item cutoff (fst item) (snd item) out) d out) = Some l ->
    l <> [].
Proof.
  induction d as [|[key dq] d IH]; intros out Hout; simpl; [exact Hout|].
  apply IH. now apply series_item_nonempty.
Qed.

(** C4: [series] lists under an event exactly one entry per stored key of
    that event whose points within the window are not none; the entry holds
    the stored points with [ts >= now - window], in stored order; no event is
    listed with no entry and no entry with no point.  With points at 0, 10,
    20, 30, a window of 15 and now 30 the points at 20 and 30 are returned,
    and a point at the cutoff itself is within the window. *)
Theorem series_window :
  (forall st now e s t pts,
     In {| entry_service := s; entry_status := t; entry_points := pts |}
        (value_of [] e (MetricsStore.series now st))
     <-> exists dq,
           In ((e, s, t), dq) (MetricsStore._series st) /\
           pts = filter (in_window (now - MetricsStore._series_window st)) dq /\
           pts <> []) /\
  (forall st now e l, get e (MetricsStore.series now st) = Some l -> l <> []) /\
  (forall counts sums ns mins maxs cap e s t v0 v1 v2 v3,
     MetricsStore.series 30
       {| MetricsStore._counts := counts; MetricsStore._sum := sums;
          MetricsStore._n := ns; MetricsStore._min := mins; MetricsStore._max := maxs;
          MetricsStore._series :=
            [((e, s, t), [(0, v0); (10, v1); (20, v2); (30, v3)]%float)];
          MetricsStore._series_max := cap; MetricsStore._series_window := 15 |}
     = [(e, [{| entry_service := s; entry_status := t;
                entry_points := [(20, v2); (30, v3)]%float |}])]) /\
  (forall v, in_window (30 - 15) (15%float, v) = true).
Proof.
  repeat split.
  - intros H. apply series_fold in H as [[]|H]. exact H.
  - intros H. apply series_fold. now right.
  - intros st now e l. apply series_fold_nonempty. discriminate.
  - intros. unfold MetricsStore.series, MetricsStore.series_item, setdefault, getitem. simpl.
    destruct (eq_dec e e); [reflexivity | congruence].
Qed.

Lemma series_window_witness :
  let st := run (track_all (py "db") None None [(0, 1); (10, 2); (20, 3); (30, 4)]%float
                 ++ [Track 5 (py "io") (Some 9%float) None None])
              (MetricsStore.init 15 500) in
  let l := [{| entry_service := []; entry_status := [];
               entry_points := [(20, 3); (30, 4)]%float |}] in
  get (py "db") (MetricsStore.series 30 st) = Some l /\
  get (py "io") (MetricsStore.series 30 st) = None /\
  l <> [].
Proof.
  intros st l.
  assert (H : get (py "db") (MetricsStore.series 30 st) = Some l) by reflexivity.
  split; [exact H|]. split; [reflexivity|].
  exact (proj1 (proj2 series_window) st 30%float (py "db") l H).
Defined.

(** ** Sentinels *)

(** A key that never received a value has a row of nulls with zero samples,
    and [count] still counts its calls. *)
Lemma snapshot_without_values w cap ops key :
  calls_for key ops <> [] -> values_for key ops = [] ->
  exists r,
    rows_for key (fst (MetricsStore.snapshot (run ops (MetricsStore.init w cap)))) = [r] /\
    row_count r = length (calls_for key ops) /\ row_samples r = 0 /\
    row_avg r = None /\ row_min r = None /\ row_max r = None.
Proof.
  intros Hcalls Hvs. rewrite snapshot_rows_for.
  destruct (calls_for key ops) as [|op l] eqn:E; [congruence|]. rewrite <- E.
  eexists. split; [reflexivity|].
  destruct (holds_after w cap ops key) as (_ & Hn & _ & Hmin & Hmax & _).
  rewrite Hvs in *. unfold row_of. cbn [fst snd row_count row_samples row_avg row_min row_max].
  rewrite Hn, Hmin, Hmax. repeat split.
Qed.

(** No row reports the sentinel itself: [min] is never [+inf] and [max]
    never [-inf]. *)
Lemma snapshot_no_sentinel st r :
  In r (fst (MetricsStore.snapshot st)) ->
  row_min r <> Some infinity /\ row_max r <> Some neg_infinity.
Proof.
  rewrite snapshot_rows. intros (item & <- & _)%in_map_iff. unfold row_of.
  cbn [row_min row_max]. split.
  - destruct (min_of st (fst item) =? infinity)%float eqn:E; simpl; [discriminate|].
    intros [= H]. rewrite H in E. discriminate.
  - destruct (max_of st (fst item) =? neg_infinity)%float eqn:E; simpl; [discriminate|].
    intros [= H]. rewrite H in E. discriminate.
Qed.

(** C5: the row of a key whose one supplied value is [+inf] has one sample
    and a non-null [avg] and [max], yet a null [min]; likewise a null [max]
    for [-inf].  A value equal to the sentinel is taken for no value. *)
Theorem snapshot_sentinel_collision w cap ts e s t :
  let key := (e, or_empty s, or_empty t) in
  (exists r,
     rows_for key (fst (MetricsStore.snapshot
       (run (track_all e s t [(ts, infinity)]) (MetricsStore.init w cap)))) = [r] /\
     row_count r = 1 /\ row_samples r = 1 /\ row_avg r = Some infinity /\
     row_max r = Some infinity /\ row_min r = None) /\
  (exists r,
     rows_for key (fst (MetricsStore.snapshot
       (run (track_all e s t [(ts, neg_infinity)]) (MetricsStore.init w cap)))) = [r] /\
     row_count r = 1 /\ row_samples r = 1 /\ row_avg r = Some neg_infinity /\
     row_min r = Some neg_infinity /\ row_max r = None).
Proof.
  intros key. split; rewrite snapshot_rows_for;
    match goal with |- context [run ?o _] =>
      destruct (holds_after w cap o key) as (_ & Hn & Hsum & Hmin & Hmax & _)
    end;
    unfold key in *; rewrite values_for_track_all in Hn, Hsum, Hmin, Hmax;
    rewrite calls_for_track_all;
    (eexists; split; [reflexivity|]); unfold row_of;
    cbn [fst snd row_count row_samples row_avg row_min row_max];
    rewrite Hn, Hsum, Hmin, Hmax; repeat split; reflexivity.
Qed.

(** ** Other keys *)

Lemma get_incr_other key k d : k <> key -> get k (MetricsStore.incr key d) = get k d.
Proof.
  intros Hne. unfold MetricsStore.incr. read_item.
  now rewrite get_setitem_other, get_getitem_other.
Qed.

Lemma get_add_value_other key v k d :
  k <> key -> get k (MetricsStore.add_value key v d) = get k d.
Proof.
  intros Hne. unfold MetricsStore.add_value. read_item.
  now rewrite get_setitem_other, get_getitem_other.
Qed.

Lemma get_lower_other key v k d : k <> key -> get k (MetricsStore.lower key v d) = get k d.
Proof.
  intros Hne. unfold MetricsStore.lower. read_item.
  destruct (v <? _)%float; rewrite ?get_setitem_other, get_getitem_other; auto.
Qed.

Lemma get_raise_other key v k d : k <> key -> get k (MetricsStore.raise key v d) = get k d.
Proof.
  intros Hne. unfold MetricsStore.raise. read_item.
  destruct (_ <? v)%float; rewrite ?get_setitem_other, get_getitem_other; auto.
Qed.

Lemma get_push_other cap key p k (d : dict LabelKey (list point)) :
  k <> key -> get k (MetricsStore.push cap key p d) = get k d.
Proof.
  intros Hne. unfold MetricsStore.push. read_item.
  now rewrite get_setitem_other, get_getitem_other.
Qed.

Lemma keys_snapshot_rows st :
  map row_key (fst (MetricsStore.snapshot st)) = keys (MetricsStore._counts st).
Proof.
  rewrite snapshot_rows, map_map. apply map_ext. intros item. apply row_key_row_of.
Qed.

(** C6: a [track] call leaves the entries of every key other than its own
    (event, service-or-empty, status-or-empty) as they were, in all six
    dictionaries; after any history on a fresh store [snapshot] returns rows
    with pairwise distinct keys, one for each key some call was made for. *)
Theorem track_frame :
  (forall st ts e v s t key,
     key <> (e, or_empty s, or_empty t) ->
     let st' := MetricsStore.track ts e v s t st in
     get key (MetricsStore._counts st') = get key (MetricsStore._counts st) /\
     get key (MetricsStore._n st') = get key (MetricsStore._n st) /\
     get key (MetricsStore._sum st') = get key (MetricsStore._sum st) /\
     get key (MetricsStore._min st') = get key (MetricsStore._min st) /\
     get key (MetricsStore._max st') = get key (MetricsStore._max st) /\
     get key (MetricsStore._series st') = get key (MetricsStore._series st)) /\
  (forall w cap ops,
     let rows := fst (MetricsStore.snapshot (run ops (MetricsStore.init w cap))) in
     NoDup (map row_key rows) /\
     forall key, In key (map row_key rows) <-> seen key ops).
Proof.
  split.
  - intros st ts e v s t key Hne st'. subst st'. unfold MetricsStore.track.
    destruct v as [v|]; cbn [MetricsStore._counts MetricsStore._n MetricsStore._sum
      MetricsStore._min MetricsStore._max MetricsStore._series];
      rewrite ?get_incr_other, ?get_add_value_other, ?get_lower_other,
        ?get_raise_other, ?get_push_other by exact Hne;
      repeat split.
  - intros w cap ops rows. subst rows. rewrite keys_snapshot_rows. split.
    + apply run_NoDup. constructor.
    + intros key. rewrite run_keys. simpl. tauto.
Qed.

Lemma track_frame_witness :
  let st := run [Track 1 (py "a") (Some 4%float) None None;
                 Track 2 (py "b") (Some 7%float) None (Some (py "ok"))]
              (MetricsStore.init 300 500) in
  let st' := MetricsStore.track 3 (py "b") (Some 9%float) (Some []) (Some (py "ok")) st in
  let key := (py "a", [], []) in
  key <> (py "b", or_empty (Some []), or_empty (Some (py "ok"))) /\
  get key (MetricsStore._counts st') = get key (MetricsStore._counts st) /\
  get key (MetricsStore._n st') = get key (MetricsStore._n st) /\
  get key (MetricsStore._sum st') = get key (MetricsStore._sum st) /\
  get key (MetricsStore._min st') = get key (MetricsStore._min st) /\
  get key (MetricsStore._max st') = get key (MetricsStore._max st) /\
  get key (MetricsStore._series st') = get key (MetricsStore._series st).
Proof.
  intros st st' key.
  assert (Hne : key <> (py "b", or_empty (Some []), or_empty (Some (py "ok"))))
    by (vm_compute; discriminate).
  split; [exact Hne|].
  exact (proj1 track_frame st 3%float (py "b") (Some 9%float) (Some []) (Some (py "ok"))
           key Hne).
Defined.

(** ** Validation *)

Lemma lstrip_blank s : forallb isspace s = true -> lstrip s = [].
Proof.
  induction s as [|c s IH]; simpl; [reflexivity|].
  destruct (isspace c); simpl; [exact IH | discriminate].
Qed.

Lemma strip_blank s : forallb isspace s = true -> strip s = [].
Proof. intros H. unfold strip. now rewrite (lstrip_blank s H). Qed.

(** C7: a [/track] request whose [event] is empty or holds white space only
    is answered with a validation error and leaves the application state (the
    store and both Prometheus metrics) exactly as it was. *)
Theorem blank_event_rejected ts body app :
  forallb isspace (event body) = true ->
  post_track ts body app = (unprocessable "event must be a non-empty string", app).
Proof.
  intros Hblank. unfold post_track, TrackPayload_validate, validate_event.
  now rewrite (strip_blank _ Hblank).
Qed.

Lemma blank_event_rejected_witness :
  let body := {| event := py "   "; value := Some 1%float;
                 service := Some (py "api"); status := None |} in
  forallb isspace (event body) = true /\
  post_track 5 body startup = (unprocessable "event must be a non-empty string", startup).
Proof.
  intros body.
  assert (H : forallb isspace (event body) = true) by reflexivity.
  split; [exact H|]. exact (blank_event_rejected 5%float body startup H).
Defined.

(** ** Repeated reads *)

Lemma exec_read_same st op : is_read op = true -> same_reads st (exec st op).
Proof.
  destruct op as [ts e v s t| |now]; simpl; intros H;
    [discriminate | apply snapshot_same_reads | apply same_reads_refl].
Qed.

Lemma run_reads_same reads : forall st,
  forallb is_read reads = true -> same_reads st (run reads st).
Proof.
  induction reads as [|op reads IH]; intros st H; simpl in *.
  - apply same_reads_refl.
  - apply andb_prop in H as [Hop Hreads].
    eapply same_reads_trans; [apply exec_read_same, Hop | apply IH, Hreads].
Qed.

Lemma snapshot_same a b :
  same_reads a b -> fst (MetricsStore.snapshot a) = fst (MetricsStore.snapshot b).
Proof.
  intros H. rewrite !snapshot_rows. rewrite <- (proj1 H).
  apply map_ext. intros item. now apply row_of_same_reads.
Qed.

Lemma series_same a b now :
  same_reads a b -> MetricsStore.series now a = MetricsStore.series now b.
Proof. intros (_ & Hs & _ & Hw & _). unfold MetricsStore.series. now rewrite Hs, Hw. Qed.

(** C8: for every store, [snapshot] called again returns the rows it
    returned, [series] with the same [now] returns the same series, and the
    same holds across any sequence of reads with no [track] call among them. *)
Theorem reads_repeatable :
  (forall st, fst (MetricsStore.snapshot (snd (MetricsStore.snapshot st)))
              = fst (MetricsStore.snapshot st)) /\
  (forall st now, MetricsStore.series now (exec st (Series now)) = MetricsStore.series now st) /\
  (forall st reads now,
     forallb is_read reads = true ->
     fst (MetricsStore.snapshot (run reads st)) = fst (MetricsStore.snapshot st) /\
     MetricsStore.series now (run reads st) = MetricsStore.series now st).
Proof.
  repeat split.
  - symmetry. apply snapshot_same, snapshot_same_reads.
  - symmetry. now apply snapshot_same, run_reads_same.
  - symmetry. now apply series_same, run_reads_same.
Qed.

Lemma reads_repeatable_witness :
  let st := run [Track 1 (py "a") None None None; Track 2 (py "b") (Some 3%float) None None]
              (MetricsStore.init 300 500) in
  let reads := [Snapshot; Series 2; Snapshot] in
  forallb is_read reads = true /\
  fst (MetricsStore.snapshot (run reads st)) = fst (MetricsStore.snapshot st) /\
  MetricsStore.series 2 (run reads st) = MetricsStore.series 2 st.
Proof.
  intros st reads.
  assert (H : forallb is_read reads = true) by reflexivity.
  split; [exact H|].
  exact (proj2 (proj2 reads_repeatable) st reads 2%float H).
Defined.

(** ** The two sinks of the route *)

Lemma run_app a b st : run (a ++ b) st = run b (run a st).
Proof. apply fold_left_app. Qed.

(** What one request does: nothing when the body is not valid, else the
    store call and the two metric updates, all under one key. *)
Lemma serve_spec app req :
  match TrackPayload_validate (snd req) with
  | ValueError _ => serve app req = app
  | Ok p =>
      let labels := (event p, or_empty (service p), or_empty (status p)) in
      STORE (serve app req)
        = MetricsStore.track (fst req) (event p) (value p) (service p) (status p) (STORE app) /\
      EVENT_COUNT (serve app req) = MetricsStore.incr labels (EVENT_COUNT app) /\
      EVENT_LATENCY (serve app req)
        = match value p with
          | Some v => observe labels v (EVENT_LATENCY app)
          | None => EVENT_LATENCY app
          end
  end.
Proof.
  unfold serve, post_track. destruct (TrackPayload_validate (snd req)) as [p|msg];
    [repeat split | reflexivity].
Qed.

Lemma serve_all_store reqs : forall app,
  STORE (serve_all reqs app) = run (accepted reqs) (STORE app).
Proof.
  induction reqs as [|req reqs IH]; intros app; [reflexivity|].
  change (serve_all (req :: reqs) app) with (serve_all reqs (serve app req)).
  rewrite IH. unfold accepted. simpl flat_map. rewrite run_app. f_equal.
  pose proof (serve_spec app req) as H.
  destruct (TrackPayload_validate (snd req)) as [p|msg].
  - simpl. apply H.
  - simpl. now rewrite H.
Qed.

Lemma serve_all_counter reqs : forall app,
  EVENT_COUNT app = MetricsStore._counts (STORE app) ->
  EVENT_COUNT (serve_all reqs app) = MetricsStore._counts (STORE (serve_all reqs app)).
Proof.
  induction reqs as [|req reqs IH]; intros app Hinv; [exact Hinv|].
  change (serve_all (req :: reqs) app) with (serve_all reqs (serve app req)).
  apply IH. pose proof (serve_spec app req) as H.
  destruct (TrackPayload_validate (snd req)) as [p|msg].
  - destruct H as (-> & -> & _). rewrite Hinv. now destruct (value p).
  - now rewrite H.
Qed.

Lemma observe_value key v k (h : Histogram) :
  value_of [] k (observe key v h)
  = if eq_dec key k then value_of [] k h ++ [v] else value_of [] k h.
Proof. unfold observe. read_item. by_key key k; reflexivity. Qed.

Lemma serve_all_latency reqs labels : forall app,
  value_of [] labels (EVENT_LATENCY (serve_all reqs app))
  = value_of [] labels (EVENT_LATENCY app) ++ values_for labels (accepted reqs).
Proof.
  induction reqs as [|req reqs IH]; intros app.
  - simpl. now rewrite app_nil_r.
  - change (serve_all (req :: reqs) app) with (serve_all reqs (serve app req)).
    rewrite IH. unfold accepted. simpl flat_map. rewrite values_for_app, app_assoc.
    f_equal. pose proof (serve_spec app req) as H.
    destruct (TrackPayload_validate (snd req)) as [p|msg].
    + destruct H as (_ & _ & ->). unfold values_for, points_for.
      rewrite calls_for_track.
      destruct (value p) as [v|]; [rewrite observe_value|];
        destruct (eq_dec _ labels); simpl; now rewrite ?app_nil_r.
    + rewrite H. simpl. now rewrite app_nil_r.
Qed.

(** C9: after any sequence of [/track] requests to a fresh application, the
    counter [mc_events_total] holds the same label triples with the same
    counts as the store's [_counts] (for each triple, the number of valid
    requests made for it), and the histogram has observed, for each triple,
    exactly the values the valid requests supplied for it, in order. *)
Theorem prometheus_lockstep reqs labels :
  let app := serve_all reqs startup in
  EVENT_COUNT app = MetricsStore._counts (STORE app) /\
  value_of 0 labels (EVENT_COUNT app) = count_of (STORE app) labels /\
  count_of (STORE app) labels = length (calls_for labels (accepted reqs)) /\
  value_of [] labels (EVENT_LATENCY app) = values_for labels (accepted reqs) /\
  length (value_of [] labels (EVENT_LATENCY app)) = n_of (STORE app) labels.
Proof.
  intros app.
  assert (Hc : EVENT_COUNT app = MetricsStore._counts (STORE app))
    by now apply serve_all_counter.
  assert (Hs : STORE app = run (accepted reqs) (MetricsStore.init 300 500))
    by apply serve_all_store.
  assert (Hl : value_of [] labels (EVENT_LATENCY app) = values_for labels (accepted reqs))
    by apply serve_all_latency.
  destruct (holds_after 300%float 500 (accepted reqs) labels) as (Hcount & Hn & _).
  rewrite <- Hs in Hcount, Hn.
  repeat split.
  - exact Hc.
  - unfold count_of. now rewrite Hc.
  - exact Hcount.
  - exact Hl.
  - now rewrite Hl, Hn.
Qed.

(** ** Trimming *)

Lemma lstrip_app_blank ws s : forallb isspace ws = true -> lstrip (ws ++ s) = lstrip s.
Proof.
  induction ws as [|c ws IH]; simpl; [reflexivity|].
  destruct (isspace c); simpl; [exact IH | discriminate].
Qed.

Lemma lstrip_nil_blank s : lstrip s = [] -> forallb isspace s = true.
Proof.
  induction s as [|c s IH]; simpl; [reflexivity|].
  destruct (isspace c); simpl; [exact IH | discriminate].
Qed.

Lemma lstrip_app s b : lstrip s <> [] -> lstrip (s ++ b) = lstrip s ++ b.
Proof.
  induction s as [|c s IH]; simpl; [congruence|].
  destruct (isspace c); [exact IH | reflexivity].
Qed.

Lemma forallb_rev {A} (f : A -> bool) l : forallb f l = true -> forallb f (rev l) = true.
Proof.
  rewrite !forallb_forall. intros H x Hx. apply H. now apply in_rev.
Qed.

Lemma rstrip_app_blank s ws : forallb isspace ws = true -> rstrip (s ++ ws) = rstrip s.
Proof.
  intros H. unfold rstrip. now rewrite rev_app_distr, lstrip_app_blank by now apply forallb_rev.
Qed.

(** White space around a string does not change what [strip] returns. *)
Lemma strip_pad pre core post :
  forallb isspace pre = true -> forallb isspace post = true ->
  strip (pre ++ core ++ post) = strip core.
Proof.
  intros Hpre Hpost. unfold strip. rewrite lstrip_app_blank by exact Hpre.
  destruct (lstrip core) as [|c l] eqn:E.
  - apply lstrip_nil_blank in E.
    now rewrite lstrip_app_blank, (lstrip_blank post Hpost) by exact E.
  - rewrite lstrip_app, E by congruence. now apply rstrip_app_blank.
Qed.

Lemma validate_trimmed body :
  strip (event body) <> [] ->
  TrackPayload_validate body
  = Ok {| event := strip (event body); value := value body;
          service := service body; status := status body |}.
Proof.
  intros Hne. unfold TrackPayload_validate, validate_event.
  destruct (strip (event body)); [congruence | reflexivity].
Qed.

Lemma incr_fresh key : MetricsStore.incr key [] = [(key, 1)].
Proof.
  unfold MetricsStore.incr, getitem. simpl. destruct (eq_dec key key); congruence.
Qed.

Lemma incr_head key c d : MetricsStore.incr key ((key, c) :: d) = (key, c + 1) :: d.
Proof.
  unfold MetricsStore.incr, getitem. simpl. destruct (eq_dec key key); [|congruence].
  simpl. destruct (eq_dec key key); congruence.
Qed.

Lemma counts_track ts e v s t st :
  MetricsStore._counts (MetricsStore.track ts e v s t st)
  = MetricsStore.incr (e, or_empty s, or_empty t) (MetricsStore._counts st).
Proof. now destruct v. Qed.

(** C10: a valid [/track] request calls the store, and labels both metrics,
    with the trimmed [event]; two requests whose events are one string with
    different white space around it, and the same service and status, give one
    key and one [snapshot] row, counted twice. *)
Theorem event_trimmed :
  (forall ts body app,
     strip (event body) <> [] ->
     let key := (strip (event body), or_empty (service body), or_empty (status body)) in
     let app' := snd (post_track ts body app) in
     fst (post_track ts body app) = ok_true /\
     STORE app' = MetricsStore.track ts (strip (event body)) (value body)
                    (service body) (status body) (STORE app) /\
     In key (keys (MetricsStore._counts (STORE app'))) /\
     In key (keys (EVENT_COUNT app'))) /\
  (forall pre1 post1 pre2 post2 core ts1 ts2 v1 v2 s t,
     forallb isspace pre1 = true -> forallb isspace post1 = true ->
     forallb isspace pre2 = true -> forallb isspace post2 = true ->
     strip core <> [] ->
     let app :=
       serve_all
         [(ts1, {| event := pre1 ++ core ++ post1; value := v1; service := s; status := t |});
          (ts2, {| event := pre2 ++ core ++ post2; value := v2; service := s; status := t |})]
         startup in
     exists r,
       fst (MetricsStore.snapshot (STORE app)) = [r] /\
       row_key r = (strip core, or_empty s, or_empty t) /\
       row_count r = 2 /\
       keys (EVENT_COUNT app) = [(strip core, or_empty s, or_empty t)]).
Proof.
  split.
  - intros ts body app Hne key app'. subst key app'. unfold post_track.
    rewrite (validate_trimmed body Hne). unfold track. cbn [fst snd event value service status
      STORE EVENT_COUNT].
    repeat split.
    + rewrite counts_track. apply incr_keys. now left.
    + apply incr_keys. now left.
  - intros pre1 post1 pre2 post2 core ts1 ts2 v1 v2 s t H1 H2 H3 H4 Hne app.
    assert (Hc : EVENT_COUNT app = MetricsStore._counts (STORE app))
      by now apply serve_all_counter.
    assert (Hs : MetricsStore._counts (STORE app)
                 = [((strip core, or_empty s, or_empty t), 2)]).
    { subst app. rewrite serve_all_store. unfold accepted. simpl flat_map.
      rewrite !validate_trimmed by (cbn [event]; now rewrite strip_pad).
      cbn [event value service status fst snd app]. rewrite !strip_pad by assumption.
      simpl run. now rewrite !counts_track, incr_fresh, incr_head. }
    rewrite snapshot_rows, Hc, Hs. simpl map.
    eexists. split; [reflexivity|]. repeat split.
Qed.

Lemma event_trimmed_witness :
  let app :=
    serve_all
      [(1%float, {| event := py "  " ++ py "login" ++ []; value := None;
                    service := None; status := Some (py "ok") |});
       (2%float, {| event := [] ++ py "login" ++ py " "; value := Some 3%float;
                    service := None; status := Some (py "ok") |})]
      startup in
  strip (py "login") <> [] /\
  exists r,
    fst (MetricsStore.snapshot (STORE app)) = [r] /\
    row_key r = (strip (py "login"), or_empty None, or_empty (Some (py "ok"))) /\
    row_count r = 2 /\
    keys (EVENT_COUNT app) = [(strip (py "login"), or_empty None, or_empty (Some (py "ok")))].
Proof.
  intros app.
  assert (Hne : strip (py "login") <> []) by (vm_compute; discriminate).
  split; [exact Hne|].
  exact (proj2 event_trimmed (py "  ") [] [] (py " ") (py "login") 1%float 2%float
           None (Some 3%float) None (Some (py "ok")) eq_refl eq_refl eq_refl eq_refl Hne).
Defined.

(** * Further properties of the store *)

(** ** Counts *)

Lemma In_item_get {K V} `{EqDec K} (k : K) (v : V) (d : dict K V) :
  NoDup (keys d) -> In (k, v) d -> get k d = Some v.
Proof.
  induction d as [|[k' v'] r IH]; simpl; [tauto|].
  intros Hnd [[= -> ->]|Hin].
  - destruct (eq_dec k k); congruence.
  - inversion Hnd as [|? ? Hnin Hnd']; subst.
    destruct (eq_dec k k') as [->|Hne]; [|auto].
    exfalso. apply Hnin. change (In (fst (k', v)) (map fst r)). now apply in_map.
Qed.

(** After a history on a fresh store, an item of [_counts] holds the number
    of calls made for its key. *)
Lemma counts_item w cap ops key c :
  In (key, c) (MetricsStore._counts (run ops (MetricsStore.init w cap))) ->
  c = length (calls_for key ops).
Proof.
  intros Hin. apply In_item_get in Hin; [|apply run_NoDup; constructor].
  apply count_of_item in Hin. rewrite Hin. apply holds_after.
Qed.

(** X1: in every row [snapshot] returns after any history on a fresh store,
    [samples] is at most [count]. *)
Theorem samples_le_count w cap ops :
  Forall (fun r => row_samples r <= row_count r)
    (fst (MetricsStore.snapshot (run ops (MetricsStore.init w cap)))).
Proof.
  rewrite snapshot_rows. apply Forall_map, Forall_forall. intros [key c] Hin.
  apply counts_item in Hin. subst c. cbn [row_of row_samples row_count fst snd].
  destruct (holds_after w cap ops key) as (_ & -> & _).
  rewrite length_values_supplied. apply filter_length_le.
Qed.

Lemma keys_getitem_grow {K V} `{EqDec K} (dflt : V) (k : K) (d : dict K V) :
  exists l, keys (snd (getitem dflt k d)) = keys d ++ l.
Proof.
  unfold getitem. destruct (get k d) eqn:E; simpl.
  - exists []. now rewrite app_nil_r.
  - rewrite keys_setitem, E. now exists [k].
Qed.

Lemma keys_setitem_grow {K V} `{EqDec K} (k : K) (v : V) (d : dict K V) :
  exists l, keys (setitem k v d) = keys d ++ l.
Proof.
  rewrite keys_setitem. destruct (get k d).
  - exists []. now rewrite app_nil_r.
  - now exists [k].
Qed.

Lemma keys_incr_grow key d : exists l, keys (MetricsStore.incr key d) = keys d ++ l.
Proof.
  unfold MetricsStore.incr. read_item.
  destruct (keys_getitem_grow 0 key d) as [l1 E1].
  destruct (keys_setitem_grow key (value_of 0 key d + 1) (snd (getitem 0 key d))) as [l2 E2].
  exists (l1 ++ l2). now rewrite E2, E1, app_assoc.
Qed.

Lemma exec_keys_grow st op :
  exists l, keys (MetricsStore._counts (exec st op)) = keys (MetricsStore._counts st) ++ l.
Proof.
  destruct op as [ts e v s t| |now]; simpl.
  - rewrite counts_track. apply keys_incr_grow.
  - rewrite <- (proj1 (snapshot_same_reads st)). exists []. now rewrite app_nil_r.
  - exists []. now rewrite app_nil_r.
Qed.

Lemma run_keys_grow ops : forall st,
  exists l, keys (MetricsStore._counts (run ops st)) = keys (MetricsStore._counts st) ++ l.
Proof.
  induction ops as [|op ops IH]; intros st; simpl.
  - exists []. now rewrite app_nil_r.
  - destruct (IH (exec st op)) as [l2 E2]. destruct (exec_keys_grow st op) as [l1 E1].
    exists (l1 ++ l2). now rewrite E2, E1, app_assoc.
Qed.

(** X2: rows keep their place.  For every store, the keys of the rows
    [snapshot] returns after more operations start with the keys of the rows
    it returned before, in the same order: no key is ever removed or moved,
    new keys come last. *)
Theorem snapshot_rows_stable st ops :
  exists l,
    map row_key (fst (MetricsStore.snapshot (run ops st)))
    = map row_key (fst (MetricsStore.snapshot st)) ++ l.
Proof. rewrite !keys_snapshot_rows. apply run_keys_grow. Qed.

Lemma sum_setitem_new {K} `{EqDec K} (k : K) v (d : dict K nat) :
  get k d = None -> list_sum (map snd (setitem k v d)) = list_sum (map snd d) + v.
Proof.
  induction d as [|[k' v'] r IH]; simpl; [lia|].
  destruct (eq_dec k k'); [discriminate|]. intros Hg. simpl. rewrite (IH Hg). lia.
Qed.

Lemma sum_setitem_old {K} `{EqDec K} (k : K) v c (d : dict K nat) :
  get k d = Some c ->
  list_sum (map snd (setitem k v d)) + c = list_sum (map snd d) + v.
Proof.
  induction d as [|[k' v'] r IH]; simpl; [discriminate|].
  destruct (eq_dec k k'); simpl.
  - intros [= ->]. lia.
  - intros Hg. specialize (IH Hg). lia.
Qed.

Lemma sum_incr key d :
  list_sum (map snd (MetricsStore.incr key d)) = list_sum (map snd d) + 1.
Proof.
  unfold MetricsStore.incr. read_item.
  pose proof (sum_setitem_old key (value_of 0 key d + 1) (snd (getitem 0 key d))
                (get_getitem_same 0 key d)) as H1.
  assert (H2 : list_sum (map snd (snd (getitem 0 key d)))
               = list_sum (map snd d) + (value_of 0 key d
                   - match get key d with Some c => c | None => 0 end)).
  { rewrite value_of_get. unfold getitem. destruct (get key d) eqn:E; simpl; [lia|].
    rewrite sum_setitem_new by exact E. lia. }
  rewrite value_of_get in *. destruct (get key d); lia.
Qed.

Lemma exec_sum st op :
  list_sum (map snd (MetricsStore._counts (exec st op)))
  = list_sum (map snd (MetricsStore._counts st)) + (if is_track op then 1 else 0).
Proof.
  destruct op as [ts e v s t| |now]; simpl.
  - rewrite counts_track. apply sum_incr.
  - rewrite <- (proj1 (snapshot_same_reads st)). lia.
  - lia.
Qed.

Lemma run_sum ops : forall st,
  list_sum (map snd (MetricsStore._counts (run ops st)))
  = list_sum (map snd (MetricsStore._counts st)) + length (writes ops).
Proof.
  unfold writes. induction ops as [|op ops IH]; intros st; simpl; [lia|].
  rewrite IH, exec_sum. destruct (is_track op); simpl; lia.
Qed.

(** X3: no call is lost or counted twice.  After any history on a fresh
    store, the [count]s of the rows [snapshot] returns add up to the number
    of [track] calls of the history. *)
Theorem snapshot_counts_total w cap ops :
  list_sum (map row_count (fst (MetricsStore.snapshot (run ops (MetricsStore.init w cap)))))
  = length (writes ops).
Proof.
  rewrite snapshot_rows, map_map.
  change (fun x => row_count (row_of (run ops (MetricsStore.init w cap)) x))
    with (fun x : LabelKey * nat => snd x).
  now rewrite run_sum.
Qed.

Lemma lastn_map_min {A B} (f : A -> B) cap (l : list A) :
  map f (lastn cap l) = lastn (Nat.min cap (length (map f l))) (map f l).
Proof.
  unfold lastn. rewrite skipn_map, !length_map. do 2 f_equal. lia.
Qed.

(** X4: the series of a key holds as many points as values were supplied for
    it, up to the capacity: its length is the smaller of [series_max] and the
    key's sample count, and its values are the newest that many supplied. *)
Theorem series_length w cap ops key :
  let st := run ops (MetricsStore.init w cap) in
  length (series_of st key) = Nat.min cap (n_of st key) /\
  map snd (series_of st key) = lastn (Nat.min cap (n_of st key)) (values_for key ops).
Proof.
  intros st. destruct (holds_after w cap ops key) as (_ & Hn & _ & _ & _ & Hs).
  fold st in Hn, Hs. rewrite Hs, Hn, deque_extend_lastn. split.
  - rewrite length_values_for. apply length_lastn.
  - apply lastn_map_min.
Qed.

(** ** NaN and the extrema *)

Section NaN.
Import FloatOrder.

Lemma SFltb_nan x y : SFeqb x x = false -> SFltb x y = false /\ SFltb y x = false.
Proof. revert x y. by_cases; split; reflexivity. Qed.

Lemma SFeqb_nan x : SFeqb x x = false -> x = S754_nan.
Proof. revert x. by_cases. Qed.

Lemma ltb_nan v m : is_nan v = true -> (v <? m)%float = false /\ (m <? v)%float = false.
Proof.
  rewrite is_nan_spec, !ltb_spec. intros H. apply SFltb_nan.
  now destruct (SFeqb (Prim2SF v) (Prim2SF v)).
Qed.

Lemma is_nan_eq x : is_nan x = true -> x = nan.
Proof.
  rewrite is_nan_spec. intros H.
  assert (E : Prim2SF x = S754_nan)
    by (apply SFeqb_nan; now destruct (SFeqb (Prim2SF x) (Prim2SF x))).
  rewrite <- (SF2Prim_Prim2SF x), E. reflexivity.
Qed.

Lemma add_nan_l y : (nan + y)%float = nan.
Proof. apply Prim2SF_inj. rewrite add_spec. now destruct (Prim2SF y). Qed.

Lemma add_nan_r x : (x + nan)%float = nan.
Proof. apply Prim2SF_inj. rewrite add_spec. now destruct (Prim2SF x). Qed.

Lemma div_nan_l y : (nan / y)%float = nan.
Proof. apply Prim2SF_inj. rewrite div_spec. now destruct (Prim2SF y). Qed.

(** NaN values never move the minimum or the maximum. *)
Lemma running_min_skip_nan vs : forall m0,
  running_min vs m0 = running_min (filter (fun v => negb (is_nan v)) vs) m0.
Proof.
  induction vs as [|v vs IH]; intros m0; [reflexivity|]. simpl filter.
  destruct (is_nan v) eqn:E; simpl.
  - rewrite (proj1 (ltb_nan v m0 E)). apply IH.
  - apply IH.
Qed.

Lemma running_max_skip_nan vs : forall m0,
  running_max vs m0 = running_max (filter (fun v => negb (is_nan v)) vs) m0.
Proof.
  induction vs as [|v vs IH]; intros m0; [reflexivity|]. simpl filter.
  destruct (is_nan v) eqn:E; simpl.
  - rewrite (proj2 (ltb_nan v m0 E)). apply IH.
  - apply IH.
Qed.

Lemma extrema_ordered vs :
  (running_min vs infinity =? infinity)%float = false ->
  (running_min vs infinity <=? running_max vs neg_infinity)%float = true.
Proof.
  rewrite running_min_skip_nan, running_max_skip_nan.
  set (ws := filter (fun v => negb (is_nan v)) vs).
  assert (Hws : forall v, In v ws -> is_nan v = false).
  { intros v [_ H]%filter_In. now destruct (is_nan v). }
  destruct (running_min_spec ws infinity eq_refl Hws) as (_ & Hor & _ & _).
  destruct (running_max_spec ws neg_infinity eq_refl Hws) as (_ & _ & _ & Hub).
  intros Hne. destruct Hor as [E|Hin]; [rewrite E in Hne; discriminate|].
  now apply Hub.
Qed.

Lemma running_sum_nan vs : running_sum vs nan = nan.
Proof.
  induction vs as [|v vs IH]; [reflexivity|].
  unfold running_sum in *. simpl. now rewrite add_nan_l.
Qed.

Lemma running_sum_poisoned vs : forall s,
  (exists v, In v vs /\ is_nan v = true) -> running_sum vs s = nan.
Proof.
  induction vs as [|v vs IH]; intros s (x & Hin & Hx); [destruct Hin|].
  change (running_sum (v :: vs) s) with (running_sum vs (s + v)%float).
  destruct Hin as [->|Hin].
  - rewrite (is_nan_eq x Hx), add_nan_r. apply running_sum_nan.
  - apply IH. eauto.
Qed.

End NaN.

(** X5: whatever floats were supplied, NaN and infinities included, a row
    that reports both a [min] and a [max] has [min <= max]. *)
Theorem min_le_max w cap ops r m M :
  In r (fst (MetricsStore.snapshot (run ops (MetricsStore.init w cap)))) ->
  row_min r = Some m -> row_max r = Some M ->
  (m <=? M)%float = true.
Proof.
  rewrite snapshot_rows. intros ([key c] & <- & _)%in_map_iff.
  unfold row_of. cbn [fst snd row_min row_max].
  destruct (holds_after w cap ops key) as (_ & _ & _ & -> & -> & _).
  destruct (running_min _ infinity =? infinity)%float eqn:Em; simpl; [discriminate|].
  destruct (running_max _ neg_infinity =? neg_infinity)%float; simpl; [discriminate|].
  intros [= <-] [= <-]. now apply extrema_ordered.
Qed.

Lemma min_le_max_witness :
  let ops := [Track 1 (py "a") (Some 7%float) None None;
              Track 2 (py "a") (Some nan) None None;
              Track 3 (py "a") (Some neg_infinity) None None;
              Track 4 (py "a") (Some 2%float) None None] in
  let rows := fst (MetricsStore.snapshot (run ops (MetricsStore.init 300 500))) in
  let r := {| row_event := py "a"; row_service := []; row_status := [];
              row_count := 4; row_samples := 4; row_avg := Some nan;
              row_min := Some neg_infinity; row_max := Some 7%float |} in
  In r rows /\ row_min r = Some neg_infinity /\ row_max r = Some 7%float /\
  (neg_infinity <=? 7)%float = true.
Proof.
  intros ops rows r.
  assert (Hin : In r rows) by (left; reflexivity).
  split; [exact Hin|]. split; [reflexivity|]. split; [reflexivity|].
  exact (min_le_max 300%float 500 ops r Hin eq_refl eq_refl).
Defined.

(** X6: one NaN spoils the average for good.  Once a NaN was supplied for a
    key, its row reports [avg] as NaN, whatever else was or will be supplied. *)
Theorem avg_nan_forever w cap ops key :
  (exists v, In v (values_for key ops) /\ is_nan v = true) ->
  exists r,
    rows_for key (fst (MetricsStore.snapshot (run ops (MetricsStore.init w cap)))) = [r] /\
    row_avg r = Some nan.
Proof.
  intros Hnan. rewrite snapshot_rows_for.
  assert (Hcalls : calls_for key ops <> []).
  { destruct Hnan as (v & Hin & _). unfold values_for, points_for in Hin.
    intros E. rewrite E in Hin. exact Hin. }
  destruct (calls_for key ops) as [|op l] eqn:E; [congruence|]. rewrite <- E.
  eexists. split; [reflexivity|]. unfold row_of. cbn [fst snd row_avg].
  destruct (holds_after w cap ops key) as (_ & -> & -> & _).
  change (fsum (values_for key ops)) with (running_sum (values_for key ops) 0%float).
  rewrite (running_sum_poisoned _ 0%float Hnan), div_nan_l.
  destruct (values_for key ops); [|reflexivity].
  destruct Hnan as (v & [] & _).
Qed.

Lemma avg_nan_forever_witness :
  let ops := [Track 1 (py "a") (Some 7%float) None None;
              Track 2 (py "a") (Some nan) None None;
              Track 3 (py "a") (Some 2%float) None None] in
  let key := (py "a", [], []) in
  (exists v, In v (values_for key ops) /\ is_nan v = true) /\
  exists r,
    rows_for key (fst (MetricsStore.snapshot (run ops (MetricsStore.init 300 500)))) = [r] /\
    row_avg r = Some nan.
Proof.
  intros ops key.
  assert (H : exists v, In v (values_for key ops) /\ is_nan v = true).
  { exists nan. split; [right; left; reflexivity | reflexivity]. }
  split; [exact H|]. exact (avg_nan_forever 300%float 500 ops key H).
Defined.

Lemma values_for_not_nan key ops :
  values_for key (filter not_nan_call ops)
  = filter (fun v => negb (is_nan v)) (values_for key ops).
Proof.
  induction ops as [|op ops IH]; [reflexivity|].
  change (op :: ops) with ([op] ++ ops).
  rewrite filter_app, !values_for_app, filter_app, IH. f_equal.
  destruct op as [ts e [v|] s t| |now]; [ | | reflexivity | reflexivity].
  - cbn [filter not_nan_call]. unfold values_for, points_for.
    destruct (is_nan v) eqn:Ev; cbn [negb]; rewrite !calls_for_track;
      destruct (eq_dec _ key); cbn; rewrite ?Ev; reflexivity.
  - cbn [filter not_nan_call]. unfold values_for, points_for.
    rewrite !calls_for_track. destruct (eq_dec _ key); reflexivity.
Qed.

Lemma row_extrema_skip_nan w cap ops key c c' :
  let st := run ops (MetricsStore.init w cap) in
  let st' := run (filter not_nan_call ops) (MetricsStore.init w cap) in
  row_min (row_of st (key, c)) = row_min (row_of st' (key, c')) /\
  row_max (row_of st (key, c)) = row_max (row_of st' (key, c')).
Proof.
  intros st st'. unfold row_of. cbn [fst snd row_min row_max].
  destruct (holds_after w cap ops key) as (_ & _ & _ & Hm & HM & _).
  destruct (holds_after w cap (filter not_nan_call ops) key) as (_ & _ & _ & Hm' & HM' & _).
  fold st in Hm, HM. fold st' in Hm', HM'.
  rewrite Hm, HM, Hm', HM', values_for_not_nan.
  now rewrite <- running_min_skip_nan, <- running_max_skip_nan.
Qed.

(** X7: NaN values are invisible to [min] and [max].  For every key, the
    [min] and [max] [snapshot] reports after a history are those it reports
    after the same history without the calls that supplied NaN. *)
Theorem extrema_ignore_nan w cap ops key r r' :
  rows_for key (fst (MetricsStore.snapshot (run ops (MetricsStore.init w cap)))) = [r] ->
  rows_for key (fst (MetricsStore.snapshot
    (run (filter not_nan_call ops) (MetricsStore.init w cap)))) = [r'] ->
  row_min r = row_min r' /\ row_max r = row_max r'.
Proof.
  rewrite !snapshot_rows_for.
  destruct (calls_for key ops); [discriminate|].
  destruct (calls_for key (filter not_nan_call ops)); [discriminate|].
  intros [= <-] [= <-]. apply row_extrema_skip_nan.
Qed.

Lemma extrema_ignore_nan_witness :
  let ops := [Track 1 (py "a") (Some 7%float) None None;
              Track 2 (py "a") (Some nan) None None;
              Track 3 (py "a") (Some 2%float) None None] in
  let key := (py "a", [], []) in
  let r := {| row_event := py "a"; row_service := []; row_status := [];
              row_count := 3; row_samples := 3; row_avg := Some nan;
              row_min := Some 2%float; row_max := Some 7%float |} in
  let r' := {| row_event := py "a"; row_service := []; row_status := [];
               row_count := 2; row_samples := 2; row_avg := Some 4.5%float;
               row_min := Some 2%float; row_max := Some 7%float |} in
  rows_for key (fst (MetricsStore.snapshot (run ops (MetricsStore.init 300 500)))) = [r] /\
  rows_for key (fst (MetricsStore.snapshot
    (run (filter not_nan_call ops) (MetricsStore.init 300 500)))) = [r'] /\
  row_min r = row_min r' /\ row_max r = row_max r'.
Proof.
  intros ops key r r'.
  assert (H : rows_for key (fst (MetricsStore.snapshot
                (run ops (MetricsStore.init 300 500)))) = [r]) by reflexivity.
  assert (H' : rows_for key (fst (MetricsStore.snapshot
                 (run (filter not_nan_call ops) (MetricsStore.init 300 500)))) = [r'])
    by reflexivity.
  split; [exact H|]. split; [exact H'|].
  exact (extrema_ignore_nan 300%float 500 ops key H H').
Defined.

(** ** What [strip] removes *)

Lemma lstrip_split s : exists pre, s = pre ++ lstrip s /\ forallb isspace pre = true.
Proof.
  induction s as [|c s (pre & E & Hpre)]; [now exists []|]. simpl.
  destruct (isspace c) eqn:Ec.
  - exists (c :: pre). simpl. rewrite Ec, Hpre. split; [now f_equal | reflexivity].
  - now exists [].
Qed.

Lemma lstrip_head s : isspace (hd 0%N (lstrip s)) = false.
Proof.
  induction s as [|c s IH]; [reflexivity|]. simpl.
  destruct (isspace c) eqn:Ec; [exact IH | exact Ec].
Qed.

Lemma lstrip_fixed s : isspace (hd 0%N s) = false -> lstrip s = s.
Proof. destruct s as [|c r]; [reflexivity|]. simpl. now intros ->. Qed.

Lemma rstrip_split s : exists post, s = rstrip s ++ post /\ forallb isspace post = true.
Proof.
  destruct (lstrip_split (rev s)) as (pre & E & Hpre). exists (rev pre). split.
  - unfold rstrip. rewrite <- rev_app_distr, <- E. now rewrite rev_involutive.
  - now apply forallb_rev.
Qed.

Lemma hd_rev_last {A} (l : list A) d : hd d (rev l) = last l d.
Proof.
  induction l as [|a l _] using rev_ind; [reflexivity|].
  now rewrite rev_app_distr, last_last.
Qed.

Lemma rstrip_last s : isspace (last (rstrip s) 0%N) = false.
Proof.
  rewrite <- hd_rev_last. unfold rstrip. rewrite rev_involutive. apply lstrip_head.
Qed.

Lemma rstrip_fixed s : isspace (last s 0%N) = false -> rstrip s = s.
Proof.
  intros H. unfold rstrip. rewrite lstrip_fixed, rev_involutive; [reflexivity|].
  now rewrite hd_rev_last.
Qed.

Lemma lstrip_snoc a c : isspace c = false -> lstrip (a ++ [c]) <> [].
Proof.
  intros Hc. induction a as [|x a IH]; simpl.
  - now rewrite Hc.
  - destruct (isspace x); [exact IH | discriminate].
Qed.

(** Trailing white space goes, the first character stays. *)
Lemma rstrip_head s : isspace (hd 0%N s) = false -> hd 0%N (rstrip s) = hd 0%N s.
Proof.
  destruct s as [|c r]; [reflexivity|]. simpl hd. intros Hc.
  destruct (rstrip_split (c :: r)) as (post & E & _).
  destruct (rstrip (c :: r)) as [|c' r'] eqn:Er.
  - exfalso. unfold rstrip in Er. apply (f_equal (@rev char)) in Er.
    rewrite rev_involutive in Er. simpl in Er. now apply lstrip_snoc in Er.
  - simpl in E. now injection E as -> _.
Qed.

Lemma strip_head s : isspace (hd 0%N (strip s)) = false.
Proof.
  unfold strip. pose proof (lstrip_head s) as H.
  now rewrite rstrip_head.
Qed.

Lemma strip_last s : isspace (last (strip s) 0%N) = false.
Proof. apply rstrip_last. Qed.

Lemma strip_idempotent s : strip (strip s) = strip s.
Proof.
  unfold strip at 1. rewrite (lstrip_fixed _ (strip_head s)).
  apply rstrip_fixed, strip_last.
Qed.

Lemma strip_nil_blank s : strip s = [] -> forallb isspace s = true.
Proof.
  intros E. destruct (lstrip_split s) as (pre & E1 & Hpre).
  destruct (rstrip_split (lstrip s)) as (post & E2 & Hpost).
  fold (strip s) in E2. rewrite E in E2. simpl in E2.
  rewrite E1, E2, forallb_app, Hpre, Hpost. reflexivity.
Qed.

(** X8: [strip] removes white space at the two ends and nothing else.  Every
    string is its stripped form between a white-space prefix and a
    white-space suffix; the stripped form neither starts nor ends with white
    space, and stripping it again changes nothing. *)
Theorem strip_spec s :
  (exists pre post,
     s = pre ++ strip s ++ post /\
     forallb isspace pre = true /\ forallb isspace post = true) /\
  isspace (hd 0%N (strip s)) = false /\
  isspace (last (strip s) 0%N) = false /\
  strip (strip s) = strip s.
Proof.
  split; [|auto using strip_head, strip_last, strip_idempotent].
  destruct (lstrip_split s) as (pre & E1 & Hpre).
  destruct (rstrip_split (lstrip s)) as (post & E2 & Hpost).
  exists pre, post. fold (strip s) in E2. now rewrite <- E2.
Qed.

(** X9: [validate_event] rejects exactly the strings made of white space
    only (the empty string among them) and returns every other string
    stripped; what it returns is never empty and is accepted unchanged when
    validated again. *)
Theorem validate_event_spec v :
  validate_event v
  = (if forallb isspace v
     then ValueError "event must be a non-empty string"
     else Ok (strip v)) /\
  match validate_event v with
  | Ok e => e <> [] /\ validate_event e = Ok e
  | ValueError _ => True
  end.
Proof.
  unfold validate_event at 1 2. destruct (strip v) as [|c r] eqn:E.
  - rewrite (strip_nil_blank v E). auto.
  - destruct (forallb isspace v) eqn:Hb.
    + rewrite (strip_blank v Hb) in E. discriminate.
    + split; [reflexivity|]. split; [discriminate|].
      unfold validate_event. rewrite <- E, strip_idempotent, E. reflexivity.
Qed.

(** ** The shape of [series] *)

Lemma series_fold_entries cutoff d : forall (out : dict str (list SeriesEntry)) e,
  value_of [] e
    (fold_left (fun out item =>
       MetricsStore.series_item cutoff (fst item) (snd item) out) d out)
  = value_of [] e out ++ entries_for cutoff e d.
Proof.
  induction d as [|[[[e0 s0] t0] dq0] d IH]; intros out e; simpl.
  - now rewrite app_nil_r.
  - rewrite IH, series_item_value. unfold entry_for. cbn [fst snd].
    destruct (filter (in_window cutoff) dq0) as [|p pts];
      destruct (eq_dec e0 e); simpl; now rewrite <- ?app_assoc.
Qed.

Lemma entry_for_cases cutoff e item :
  entry_for cutoff e item = [] \/
  exists pts,
    entry_for cutoff e item
    = [{| entry_service := snd (fst (fst item)); entry_status := snd (fst item);
          entry_points := pts |}] /\
    fst (fst (fst item)) = e /\
    pts = filter (in_window cutoff) (snd item) /\ pts <> [].
Proof.
  unfold entry_for. destruct (eq_dec _ e) as [E|]; [|now left].
  destruct (filter (in_window cutoff) (snd item)) as [|p pts] eqn:Ef; [now left|].
  right. exists (p :: pts). repeat split; auto. discriminate.
Qed.

Lemma entries_labels_keys cutoff e (d : dict LabelKey (list point)) l :
  In l (map entry_labels (entries_for cutoff e d)) -> In (e, fst l, snd l) (keys d).
Proof.
  unfold entries_for. induction d as [|item d IH]; simpl; [tauto|].
  rewrite map_app, in_app_iff. intros [H|H]; [left | right; auto].
  destruct (entry_for_cases cutoff e item) as [E|(pts & E & He & _)]; rewrite E in H.
  - destruct H.
  - destruct H as [<-|[]]. cbn. rewrite <- He. now destruct item as [[[e0 s0] t0] dq].
Qed.

Lemma entries_NoDup cutoff e (d : dict LabelKey (list point)) :
  NoDup (keys d) -> NoDup (map entry_labels (entries_for cutoff e d)).
Proof.
  unfold entries_for. induction d as [|item d IH]; simpl; intros Hnd; [constructor|].
  inversion Hnd as [|? ? Hnin Hnd']; subst. rewrite map_app.
  destruct (entry_for_cases cutoff e item) as [E|(pts & E & He & _)]; rewrite E; simpl.
  - auto.
  - constructor; [|auto]. intros Hin. apply entries_labels_keys in Hin.
    apply Hnin. cbn in Hin. rewrite <- He in Hin. now destruct item as [[[e0 s0] t0] dq].
Qed.

Lemma push_NoDup cap key p (d : dict LabelKey (list point)) :
  NoDup (keys d) -> NoDup (keys (MetricsStore.push cap key p d)).
Proof.
  intros Hnd. unfold MetricsStore.push. read_item.
  now apply NoDup_keys_setitem, NoDup_keys_getitem.
Qed.

Lemma run_series_NoDup ops : forall st,
  NoDup (keys (MetricsStore._series st)) ->
  NoDup (keys (MetricsStore._series (run ops st))).
Proof.
  induction ops as [|op ops IH]; intros st Hnd; simpl; [exact Hnd|]. apply IH.
  destruct op as [ts e [v|] s t| |now]; simpl; auto using push_NoDup.
  destruct (snapshot_same_reads st) as (_ & <- & _). exact Hnd.
Qed.

Lemma run_window ops : forall st,
  MetricsStore._series_window (run ops st) = MetricsStore._series_window st.
Proof.
  induction ops as [|op ops IH]; intros st; simpl; [reflexivity|].
  rewrite IH. apply exec_config.
Qed.

(** After a history on a fresh store, an item of [_series] holds the newest
    points supplied for its key, at most [cap] of them. *)
Lemma series_item w cap ops key dq :
  In (key, dq) (MetricsStore._series (run ops (MetricsStore.init w cap))) ->
  dq = lastn cap (points_for key ops).
Proof.
  intros Hin. apply In_item_get in Hin; [|apply run_series_NoDup; constructor].
  destruct (holds_after w cap ops key) as (_ & _ & _ & _ & _ & Hs).
  unfold series_of in Hs. rewrite value_of_get, Hin in Hs.
  now rewrite Hs, deque_extend_lastn.
Qed.

Lemma series_value st now e :
  value_of [] e (MetricsStore.series now st)
  = entries_for (now - MetricsStore._series_window st) e (MetricsStore._series st).
Proof. unfold MetricsStore.series. now rewrite series_fold_entries. Qed.

(** X10: [series] groups by event without losing or repeating a key.  For
    every store, the entries listed under an event are, in the order of the
    keys of [_series], those of the keys with that event and a point within
    the window; after any history on a fresh store no two entries of an event
    share their service and status. *)
Theorem series_entries :
  (forall st now e,
     value_of [] e (MetricsStore.series now st)
     = entries_for (now - MetricsStore._series_window st) e (MetricsStore._series st)) /\
  (forall w cap ops now e,
     NoDup (map entry_labels
       (value_of [] e (MetricsStore.series now (run ops (MetricsStore.init w cap)))))).
Proof.
  split; [exact series_value|]. intros w cap ops now e. rewrite series_value.
  apply entries_NoDup, run_series_NoDup. constructor.
Qed.

Lemma in_entries_for cutoff e (d : dict LabelKey (list point)) en :
  In en (entries_for cutoff e d) ->
  exists s t dq, In ((e, s, t), dq) d /\
    entry_points en = filter (in_window cutoff) dq /\ entry_points en <> [].
Proof.
  unfold entries_for. intros (item & Hitem & Hen)%in_flat_map.
  destruct (entry_for_cases cutoff e item) as [E|(pts & E & He & Hp & Hne)];
    rewrite E in Hen; [destruct Hen|]. destruct Hen as [<-|[]].
  destruct item as [[[e0 s0] t0] dq]. cbn in *. subst e0.
  exists s0, t0, dq. now rewrite <- Hp.
Qed.

(** An entry [series] returns after a history on a fresh store of capacity
    [cap]: some points, at most [cap], all within the window. *)
Lemma entry_bounded w cap ops now e en :
  In en (value_of [] e (MetricsStore.series now (run ops (MetricsStore.init w cap)))) ->
  entry_points en <> [] /\
  length (entry_points en) <= cap /\
  forallb (in_window (now - w)) (entry_points en) = true.
Proof.
  rewrite series_value, run_window. cbn [MetricsStore._series_window MetricsStore.init].
  intros (s & t & dq & Hitem & Hp & Hne)%in_entries_for.
  apply series_item in Hitem. split; [exact Hne|]. rewrite Hp. split.
  - etransitivity; [apply filter_length_le|]. rewrite Hitem, length_lastn. lia.
  - apply forallb_forall. intros p Hin. now apply filter_In in Hin.
Qed.

(** X11: the answer of [series] is bounded.  After any history on a fresh
    store of capacity [cap], every entry [series] returns holds at least one
    and at most [cap] points, all of them within the window. *)
Theorem series_entries_bounded w cap ops now e :
  let st := run ops (MetricsStore.init w cap) in
  Forall (fun en =>
            entry_points en <> [] /\
            length (entry_points en) <= cap /\
            forallb (in_window (now - w)) (entry_points en) = true)
    (value_of [] e (MetricsStore.series now st)).
Proof.
  intros st. apply Forall_forall. intros en Hin.
  exact (entry_bounded w cap ops now e en Hin).
Qed.

(** ** Timestamps in order *)

Lemma StronglySorted_skipn {A} (R : A -> A -> Prop) k : forall l,
  StronglySorted R l -> StronglySorted R (skipn k l).
Proof.
  induction k as [|k IH]; intros l Hl; [exact Hl|].
  destruct l as [|a l]; [constructor|]. simpl. apply IH.
  now inversion Hl.
Qed.

(** In a series in timestamp order the points within a window are the newest
    ones: the filter drops a prefix. *)
Lemma filter_sorted_suffix cutoff (l : list point) :
  StronglySorted by_time l -> exists k, filter (in_window cutoff) l = skipn k l.
Proof.
  induction l as [|p l IH]; intros Hl; [now exists 0|].
  inversion Hl as [|? ? Hl' Hall]; subst. simpl.
  destruct (in_window cutoff p) eqn:Ep.
  - exists 0. simpl. f_equal. apply forallb_filter_id.
    apply forallb_forall. intros q Hq.
    rewrite Forall_forall in Hall. specialize (Hall q Hq).
    unfold in_window in *. eapply FloatOrder.leb_trans; eauto.
  - destruct (IH Hl') as [k Hk]. now exists (S k).
Qed.

(** X12: with a clock that does not run backwards the window is a suffix.
    When the points supplied for a key have timestamps in order, the points
    of the key within any window are the newest points of its series, with no
    gap: the series without some number of its oldest points. *)
Theorem window_is_suffix w cap ops key now :
  StronglySorted by_time (points_for key ops) ->
  let st := run ops (MetricsStore.init w cap) in
  StronglySorted by_time (series_of st key) /\
  exists k,
    filter (in_window (now - w)) (series_of st key) = skipn k (series_of st key).
Proof.
  intros Hs st.
  assert (Hsorted : StronglySorted by_time (series_of st key)).
  { destruct (holds_after w cap ops key) as (_ & _ & _ & _ & _ & E). fold st in E.
    rewrite E, deque_extend_lastn. now apply StronglySorted_skipn. }
  split; [exact Hsorted | now apply filter_sorted_suffix].
Qed.

Lemma window_is_suffix_witness :
  let ops := track_all (py "a") None None
               [(0, 5); (10, 6); (20, 7); (30, 8)]%float in
  let key := (py "a", [], []) in
  let st := run ops (MetricsStore.init 15 3) in
  StronglySorted by_time (points_for key ops) /\
  StronglySorted by_time (series_of st key) /\
  exists k,
    filter (in_window (30 - 15)) (series_of st key) = skipn k (series_of st key).
Proof.
  intros ops key st.
  assert (H : StronglySorted by_time (points_for key ops)).
  { change (points_for key ops) with [(0, 5); (10, 6); (20, 7); (30, 8)]%float.
    repeat (constructor; [|repeat constructor; reflexivity]). constructor. }
  split; [exact H|]. exact (window_is_suffix 15%float 3 ops key 30%float H).
Defined.

(** ** Reads between writes *)

Lemma same_reads_sym a b : same_reads a b -> same_reads b a.
Proof.
  intros (H1 & H2 & H3 & H4 & H5). repeat split; try congruence;
    destruct (H5 key) as (?&?&?&?); congruence.
Qed.

Lemma track_same_reads ts e v s t a b :
  same_reads a b ->
  same_reads (MetricsStore.track ts e v s t a) (MetricsStore.track ts e v s t b).
Proof.
  intros (Hc & Hs & Hm & Hw & Hk). unfold same_reads, MetricsStore.track.
  destruct v as [v|]; cbn [MetricsStore._counts MetricsStore._series
    MetricsStore._series_max MetricsStore._series_window];
    rewrite Hc, Hs, Hm, Hw; repeat split;
    destruct (Hk key) as (Hn & Hsum & Hmin & Hmax);
    unfold n_of, sum_of, min_of, max_of in *;
    cbn [MetricsStore._n MetricsStore._sum MetricsStore._min MetricsStore._max];
    rewrite ?incr_value, ?add_value_value, ?lower_value, ?raise_value; auto;
    destruct (eq_dec _ key); congruence.
Qed.

Lemma run_writes_same ops : forall a b,
  same_reads a b -> same_reads (run ops a) (run (writes ops) b).
Proof.
  induction ops as [|op ops IH]; intros a b H; [exact H|].
  destruct op as [ts e v s t| |now]; simpl.
  - apply IH. now apply track_same_reads.
  - apply IH. eapply same_reads_trans; [|exact H].
    apply same_reads_sym, snapshot_same_reads.
  - now apply IH.
Qed.

(** X13: reads leave no trace, wherever they fall.  For every store and
    every history, [snapshot] and [series] return after the history what they
    return after its [track] calls alone: the factory values the reads of
    [snapshot] insert never change a later answer, also when more calls
    follow. *)
Theorem reads_leave_no_trace st ops now :
  fst (MetricsStore.snapshot (run ops st)) = fst (MetricsStore.snapshot (run (writes ops) st)) /\
  MetricsStore.series now (run ops st) = MetricsStore.series now (run (writes ops) st).
Proof.
  pose proof (run_writes_same ops (same_reads_refl st)) as H.
  split; [now apply snapshot_same | now apply series_same].
Qed.

(** ** No capacity *)

Lemma series_fold_empty cutoff (d : dict LabelKey (list point)) :
  (forall item, In item d -> snd item = []) ->
  forall out : dict str (list SeriesEntry),
    fold_left (fun out item =>
      MetricsStore.series_item cutoff (fst item) (snd item) out) d out = out.
Proof.
  induction d as [|[key dq] d IH]; intros Hd out; [reflexivity|].
  assert (E : dq = []) by exact (Hd (key, dq) (or_introl eq_refl)). subst dq. simpl.
  apply IH. intros item Hin. apply Hd. now right.
Qed.

Lemma counts_run ops : forall st,
  MetricsStore._counts (run ops st)
  = fold_left (fun d op => match op_key op with
                           | Some k => MetricsStore.incr k d
                           | None => d
                           end) ops (MetricsStore._counts st).
Proof.
  induction ops as [|op ops IH]; intros st; [reflexivity|]. simpl. rewrite IH. f_equal.
  destruct op as [ts e v s t| |now]; simpl.
  - apply counts_track.
  - symmetry. apply snapshot_same_reads.
  - reflexivity.
Qed.

(** X14: the capacity bears on the series only, and none keeps no point.
    After any history the rows of [snapshot] are the same for every
    [series_max]; with [series_max = 0], [series] returns the empty
    dictionary. *)
Theorem capacity_only_bounds_series w ops now cap cap' :
  fst (MetricsStore.snapshot (run ops (MetricsStore.init w cap)))
  = fst (MetricsStore.snapshot (run ops (MetricsStore.init w cap'))) /\
  MetricsStore.series now (run ops (MetricsStore.init w 0)) = [].
Proof.
  split.
  - rewrite !snapshot_rows, !counts_run. apply map_ext. intros [key c].
    unfold row_of. cbn [fst snd].
    destruct (holds_after w cap ops key) as (_ & -> & -> & -> & -> & _).
    destruct (holds_after w cap' ops key) as (_ & -> & -> & -> & -> & _).
    reflexivity.
  - unfold MetricsStore.series. apply series_fold_empty. intros [key dq] Hin.
    apply series_item in Hin. simpl. rewrite Hin.
    apply length_zero_iff_nil. rewrite length_lastn. lia.
Qed.

(** ** The JSON routes *)

Lemma handle_post app ts body : handle app (POST_track ts body) = serve app (ts, body).
Proof. reflexivity. Qed.

Lemma handle_all_store reqs : forall app,
  STORE (handle_all reqs app) = run (store_ops reqs) (STORE app).
Proof.
  induction reqs as [|req reqs IH]; intros app; [reflexivity|].
  change (handle_all (req :: reqs) app) with (handle_all reqs (handle app req)).
  rewrite IH. unfold store_ops. simpl flat_map. rewrite run_app. f_equal.
  destruct req as [ts body|utcnow|utcnow now].
  - rewrite handle_post. pose proof (serve_spec app (ts, body)) as H. cbn [fst snd] in H.
    destruct (TrackPayload_validate body) as [p|msg]; simpl.
    + apply H.
    + now rewrite H.
  - simpl. unfold metrics_json. now destruct (MetricsStore.snapshot (STORE app)).
  - reflexivity.
Qed.

Lemma handle_all_counter reqs : forall app,
  EVENT_COUNT app = MetricsStore._counts (STORE app) ->
  EVENT_COUNT (handle_all reqs app) = MetricsStore._counts (STORE (handle_all reqs app)).
Proof.
  induction reqs as [|req reqs IH]; intros app Hinv; [exact Hinv|].
  change (handle_all (req :: reqs) app) with (handle_all reqs (handle app req)).
  apply IH. destruct req as [ts body|utcnow|utcnow now].
  - rewrite handle_post. pose proof (serve_spec app (ts, body)) as H. cbn [fst snd] in H.
    destruct (TrackPayload_validate body) as [p|msg].
    + destruct H as (-> & -> & _). now rewrite Hinv, counts_track.
    + now rewrite H.
  - simpl. unfold metrics_json.
    pose proof (snapshot_same_reads (STORE app)) as (Hc & _).
    destruct (MetricsStore.snapshot (STORE app)) as [rows store]. simpl in *. congruence.
  - exact Hinv.
Qed.

Lemma handle_all_latency reqs labels : forall app,
  value_of [] labels (EVENT_LATENCY (handle_all reqs app))
  = value_of [] labels (EVENT_LATENCY app) ++ values_for labels (store_ops reqs).
Proof.
  induction reqs as [|req reqs IH]; intros app.
  - simpl. now rewrite app_nil_r.
  - change (handle_all (req :: reqs) app) with (handle_all reqs (handle app req)).
    rewrite IH. unfold store_ops. simpl flat_map. rewrite values_for_app, app_assoc.
    f_equal. destruct req as [ts body|utcnow|utcnow now].
    + rewrite handle_post. pose proof (serve_spec app (ts, body)) as H. cbn [fst snd] in H.
      destruct (TrackPayload_validate body) as [p|msg].
      * destruct H as (_ & _ & ->). unfold values_for, points_for.
        rewrite calls_for_track.
        destruct (value p) as [v|]; [rewrite observe_value|];
          destruct (eq_dec _ labels); simpl; now rewrite ?app_nil_r.
      * rewrite H. simpl. now rewrite app_nil_r.
    + simpl. unfold metrics_json. destruct (MetricsStore.snapshot (STORE app)).
      simpl. now rewrite app_nil_r.
    + simpl. now rewrite app_nil_r.
Qed.

Lemma metrics_json_rows utcnow app :
  snd (fst (metrics_json utcnow app)) = fst (MetricsStore.snapshot (STORE app)).
Proof. unfold metrics_json. now destruct (MetricsStore.snapshot (STORE app)). Qed.

(** X15: the table and the Prometheus metrics agree at all times.  After any
    sequence of requests ([POST /track], valid or not, with
    [GET /api/metrics.json] and [GET /api/series.json] anywhere between) to a
    fresh application, the rows of [/api/metrics.json] list the label triples
    of [mc_events_total] in the same order with the same counts, and the
    [samples] of each row is the number of values [mc_event_latency_seconds]
    observed for its triple. *)
Theorem metrics_json_agrees reqs utcnow :
  let app := handle_all reqs startup in
  let rows := snd (fst (metrics_json utcnow app)) in
  map (fun r => (row_key r, row_count r)) rows = EVENT_COUNT app /\
  Forall (fun r => row_samples r
                   = length (value_of [] (row_key r) (EVENT_LATENCY app))) rows.
Proof.
  intros app rows. subst rows. rewrite metrics_json_rows, snapshot_rows.
  assert (Hc : EVENT_COUNT app = MetricsStore._counts (STORE app))
    by now apply handle_all_counter.
  assert (Hs : STORE app = run (store_ops reqs) (MetricsStore.init 300 500))
    by apply handle_all_store.
  split.
  - rewrite Hc, map_map. rewrite <- (map_id (MetricsStore._counts (STORE app))) at 2.
    apply map_ext. intros [[[e s] t] c]. reflexivity.
  - apply Forall_map, Forall_forall. intros [key c] _.
    rewrite row_key_row_of. cbn [fst row_of row_samples].
    unfold app at 2. rewrite handle_all_latency. simpl app. rewrite Hs.
    destruct (holds_after 300%float 500 (store_ops reqs) key) as (_ & -> & _).
    reflexivity.
Qed.

Lemma validated_event body p :
  TrackPayload_validate body = Ok p ->
  event p <> [] /\ strip (event p) = event p.
Proof.
  unfold TrackPayload_validate, validate_event.
  destruct (strip (event body)) as [|c r] eqn:E; [discriminate|].
  intros [= <-]. cbn [event]. split; [discriminate|].
  now rewrite <- E, strip_idempotent.
Qed.

Lemma store_ops_event reqs op key :
  In op (store_ops reqs) -> op_key op = Some key ->
  fst (fst key) <> [] /\ strip (fst (fst key)) = fst (fst key).
Proof.
  unfold store_ops. intros (req & _ & Hop)%in_flat_map Hk.
  destruct req as [ts body|utcnow|utcnow now].
  - destruct (TrackPayload_validate body) as [p|msg] eqn:E; [|destruct Hop].
    destruct Hop as [<-|[]]. simpl in Hk. injection Hk as <-. cbn [fst].
    now apply validated_event in E.
  - destruct Hop as [<-|[]]. discriminate.
  - destruct Hop as [<-|[]]. discriminate.
Qed.

(** X16: no blank or padded event reaches the table.  After any sequence of
    requests to a fresh application, the [event] of every row of
    [/api/metrics.json] is not empty and carries no white space at either
    end. *)
Theorem metrics_json_events_trimmed reqs utcnow :
  Forall (fun r => row_event r <> [] /\ strip (row_event r) = row_event r)
    (snd (fst (metrics_json utcnow (handle_all reqs startup)))).
Proof.
  rewrite metrics_json_rows, handle_all_store. apply Forall_forall. intros r Hr.
  assert (Hk : In (row_key r) (map row_key
            (fst (MetricsStore.snapshot (run (store_ops reqs) (STORE startup))))))
    by now apply in_map.
  rewrite keys_snapshot_rows in Hk. apply run_keys in Hk as [[]|(op & Hop & Hkey)].
  exact (store_ops_event reqs op Hop Hkey).
Qed.

Lemma push_keys cap key p k (d : dict LabelKey (list point)) :
  In k (keys (MetricsStore.push cap key p d)) <-> k = key \/ In k (keys d).
Proof.
  unfold MetricsStore.push. read_item.
  rewrite In_keys_setitem, In_keys_getitem. tauto.
Qed.

Lemma run_series_keys ops : forall st k,
  In k (keys (MetricsStore._series (run ops st))) ->
  In k (keys (MetricsStore._series st)) \/ seen k ops.
Proof.
  unfold seen. induction ops as [|op ops IH]; intros st k Hin; [now left|].
  simpl in Hin. apply IH in Hin as [Hin|(o & Ho & Hk)]; [|right; exists o; simpl; auto].
  destruct op as [ts e [v|] s t| |now]; simpl in Hin.
  - apply push_keys in Hin as [->|Hin]; [right | now left].
    eexists. split; [now left | reflexivity].
  - now left.
  - destruct (snapshot_same_reads st) as (_ & Hs & _). rewrite <- Hs in Hin. now left.
  - now left.
Qed.

Lemma series_item_keys cutoff key dq (out : dict str (list SeriesEntry)) :
  NoDup (keys out) -> NoDup (keys (MetricsStore.series_item cutoff key dq out)).
Proof.
  intros Hnd. destruct key as [[e s] t]. unfold MetricsStore.series_item, setdefault.
  destruct (filter (in_window cutoff) dq); [exact Hnd|]. read_item.
  now apply NoDup_keys_setitem, NoDup_keys_getitem.
Qed.

Lemma series_NoDup now st : NoDup (keys (MetricsStore.series now st)).
Proof.
  unfold MetricsStore.series.
  generalize (MetricsStore._series st). intros d.
  assert (H : forall out : dict str (list SeriesEntry), NoDup (keys out) ->
     NoDup (keys (fold_left (fun out item =>
       MetricsStore.series_item (now - MetricsStore._series_window st)
         (fst item) (snd item) out) d out))).
  { induction d as [|item d IH]; intros out Hout; [exact Hout|]. simpl.
    now apply IH, series_item_keys. }
  apply H. constructor.
Qed.

(** X17: what [/api/series.json] serves.  After any sequence of requests to
    a fresh application, every event the series lists is a non-empty string
    with no white space at either end and has at least one entry, and every
    entry holds at least one and at most 500 points. *)
Theorem series_json_shape reqs utcnow now :
  Forall (fun item =>
            fst item <> [] /\ strip (fst item) = fst item /\ snd item <> [] /\
            Forall (fun en => entry_points en <> [] /\ length (entry_points en) <= 500)
              (snd item))
    (snd (fst (series_json utcnow now (handle_all reqs startup)))).
Proof.
  unfold series_json. cbn [fst snd]. rewrite handle_all_store. unfold startup. cbn [STORE].
  set (st := run (store_ops reqs) (MetricsStore.init 300 500)).
  apply Forall_forall. intros [e l] Hin. cbn [fst snd].
  apply In_item_get in Hin; [|apply series_NoDup].
  assert (Hne : l <> []).
  { revert Hin. unfold MetricsStore.series. apply series_fold_nonempty. discriminate. }
  assert (Hl : value_of [] e (MetricsStore.series now st) = l)
    by now rewrite value_of_get, Hin.
  assert (Hb : Forall (fun en => entry_points en <> [] /\ length (entry_points en) <= 500) l).
  { rewrite <- Hl. apply Forall_forall. intros en Hen.
    destruct (entry_bounded 300%float 500 (store_ops reqs) now e en Hen) as (H1 & H2 & _).
    auto. }
  assert (He : fst (fst (e, @nil char, @nil char)) <> [] /\ strip e = e).
  { destruct l as [|en l']; [congruence|].
    assert (Hen : In en (value_of [] e (MetricsStore.series now st)))
      by (rewrite Hl; now left).
    rewrite series_value in Hen. apply in_entries_for in Hen as (s & t & dq & Hitem & _).
    assert (Hk : In (e, s, t) (keys (MetricsStore._series st)))
      by (change (e, s, t) with (fst ((e, s, t), dq)); now apply in_map).
    apply run_series_keys in Hk as [[]|(op & Hop & Hkey)].
    exact (store_ops_event reqs op Hop Hkey). }
  tauto.
Qed.

(** ** A value just tracked *)

Lemma get_In {K V} `{EqDec K} (k : K) (v : V) (d : dict K V) :
  get k d = Some v -> In (k, v) d.
Proof.
  induction d as [|[k' v'] r IH]; simpl; [discriminate|].
  destruct (eq_dec k k') as [->|Hne]; [intros [= ->]; now left | auto].
Qed.

Lemma lastn_snoc {A} cap (l : list A) x :
  1 <= cap -> lastn cap (l ++ [x]) = lastn (cap - 1) l ++ [x].
Proof.
  intros Hcap. unfold lastn. rewrite length_app, skipn_app. simpl length.
  replace (length l + 1 - cap) with (length l - (cap - 1)) by lia.
  replace (length l - (cap - 1) - length l) with 0 by lia. reflexivity.
Qed.

(** X18: a value just tracked is the newest point served.  On a store of
    capacity at least one, after [track] supplied a value whose timestamp is
    within the window, [series] lists under the call's event an entry for its
    service and status whose last point is that timestamp and value. *)
Theorem tracked_point_served w cap ops ts e v s t now :
  1 <= cap -> in_window (now - w) (ts, v) = true ->
  let st := run (ops ++ [Track ts e (Some v) s t]) (MetricsStore.init w cap) in
  exists en,
    In en (value_of [] e (MetricsStore.series now st)) /\
    entry_service en = or_empty s /\ entry_status en = or_empty t /\
    exists older, entry_points en = older ++ [(ts, v)].
Proof.
  intros Hcap Hwin st. set (key := (e, or_empty s, or_empty t)).
  assert (Hs : series_of st key
               = lastn (cap - 1) (points_for key ops) ++ [(ts, v)]).
  { destruct (holds_after w cap (ops ++ [Track ts e (Some v) s t]) key)
      as (_ & _ & _ & _ & _ & E). fold st in E.
    rewrite E, deque_extend_lastn, points_for_app. unfold points_for at 2.
    rewrite calls_for_track. unfold key. destruct (eq_dec _ _); [|congruence].
    simpl flat_map. now apply lastn_snoc. }
  assert (Hg : get key (MetricsStore._series st) = Some (series_of st key)).
  { unfold series_of. rewrite value_of_get.
    destruct (get key (MetricsStore._series st)) eqn:E; [reflexivity|].
    exfalso. unfold series_of in Hs. rewrite value_of_get, E in Hs.
    now destruct (lastn (cap - 1) (points_for key ops)). }
  assert (Hw : MetricsStore._series_window st = w) by apply run_window.
  rewrite series_value, Hw.
  exists {| entry_service := or_empty s; entry_status := or_empty t;
            entry_points := filter (in_window (now - w)) (series_of st key) |}.
  repeat split.
  - unfold entries_for. apply in_flat_map. exists (key, series_of st key). split.
    + now apply get_In.
    + unfold entry_for. rewrite Hs. subst key. cbn [fst snd].
      destruct (eq_dec e e); [|congruence].
      destruct (filter _ (_ ++ _)) eqn:E; [|now left].
      rewrite filter_app in E. simpl in E. rewrite Hwin in E.
      apply app_eq_nil in E as [_ E]. discriminate.
  - cbn. rewrite Hs, filter_app. simpl. rewrite Hwin. eauto.
Qed.

Lemma tracked_point_served_witness :
  let ops := [Track 100 (py "db") (Some 1%float) None None; Snapshot] in
  let st := run (ops ++ [Track 290 (py "db") (Some 2%float) None (Some [])])
              (MetricsStore.init 300 500) in
  1 <= 500 /\ in_window (500 - 300) (290%float, 2%float) = true /\
  exists en,
    In en (value_of [] (py "db") (MetricsStore.series 500 st)) /\
    entry_service en = or_empty None /\ entry_status en = or_empty (Some []) /\
    exists older, entry_points en = older ++ [(290, 2)]%float.
Proof.
  intros ops st.
  assert (H1 : 1 <= 500) by lia.
  assert (H2 : in_window (500 - 300) (290%float, 2%float) = true) by reflexivity.
  split; [exact H1|]. split; [exact H2|].
  exact (@tracked_point_served 300%float 500 ops 290%float (py "db") 2%float None (Some [])
           500%float H1 H2).
Defined.
